(** * EtherNode dashboard: the wallet processor, the calibration gauge,
      the connectivity poller and the report fetcher of [src/App.tsx]

    The development embeds the state management of the React component
    [App] (src/App.tsx) and of [auditWalletSetup] (services/geminiService)
    as pure functions over an explicit state, and proves the properties
    the specification states about them.

    Conventions.
    - A JavaScript [number] is an exact rational ([Q]): the rounding of
      IEEE doubles is not modelled.  The programs only add, multiply and
      compare such numbers and print them with [toFixed]; the strings fed
      to [parseFloat] have at most 18 fractional digits, so the sign of the
      parsed value is the sign of the exact one.
    - A JavaScript string is a [string] of 8-bit characters; the addresses
      and amounts handled here are ASCII.
    - What the environment supplies ([Math.random()], [Date.now()],
      [crypto.randomUUID()], the outcome of a network call) is an explicit
      input of the function that consumes it. *)

From Stdlib Require Import List String Ascii Bool Arith ZArith NArith QArith Qround Qabs.
From Stdlib Require Import Lia Lqa.
From Stdlib Require Import Decimal DecimalString DecimalFacts DecimalPos DecimalN.
Import ListNotations.

Open Scope string_scope.

(** ** JavaScript primitives used by the component *)

Definition is_digit (c : ascii) : bool :=
  let n := nat_of_ascii c in (48 <=? n)%nat && (n <=? 57)%nat.

Definition is_upper (c : ascii) : bool :=
  let n := nat_of_ascii c in (65 <=? n)%nat && (n <=? 90)%nat.

(** The white space [parseFloat] skips (ASCII part of StrWhiteSpaceChar). *)
Definition is_space (c : ascii) : bool :=
  let n := nat_of_ascii c in
  ((9 <=? n)%nat && (n <=? 13)%nat) || (n =? 32)%nat.

Definition lower_char (c : ascii) : ascii :=
  if is_upper c then ascii_of_nat (nat_of_ascii c + 32) else c.

Definition digit_val (c : ascii) : N := N_of_ascii c - 48.

(** [String.prototype.toLowerCase] on ASCII text. *)
Fixpoint toLowerCase (s : string) : string :=
  match s with
  | EmptyString => EmptyString
  | String c r => String (lower_char c) (toLowerCase r)
  end.

(** [s.slice(0, n)] and [s.slice(n)]. *)
Fixpoint str_take (n : nat) (s : string) : string :=
  match n, s with
  | S k, String c r => String c (str_take k r)
  | _, _ => EmptyString
  end.

Fixpoint str_drop (n : nat) (s : string) : string :=
  match n, s with
  | S k, String _ r => str_drop k r
  | _, _ => s
  end.

Fixpoint all_digits (s : string) : bool :=
  match s with
  | EmptyString => true
  | String c r => is_digit c && all_digits r
  end.

(** The longest prefix of decimal digits, and what follows it. *)
Fixpoint span_digits (s : string) : string * string :=
  match s with
  | String c r =>
      if is_digit c
      then let (d, rest) := span_digits r in (String c d, rest)
      else (EmptyString, s)
  | EmptyString => (EmptyString, EmptyString)
  end.

(** The natural number a digit string denotes (0 for the empty string). *)
Fixpoint digits_acc (acc : N) (s : string) : N :=
  match s with
  | EmptyString => acc
  | String c r => digits_acc (acc * 10 + digit_val c) r
  end.

Definition digits_value (s : string) : N := digits_acc 0 s.

Fixpoint all_zero (s : string) : bool :=
  match s with
  | EmptyString => true
  | String c r => Ascii.eqb c "0" && all_zero r
  end.

(** [n.toString()] for a non-negative integer. *)
Definition string_of_N (n : N) : string :=
  NilEmpty.string_of_uint (N.to_uint n).

Definition string_of_Z (z : Z) : string :=
  match z with
  | Zneg p => String "-" (string_of_N (Npos p))
  | _ => string_of_N (Z.to_N z)
  end.

Fixpoint zeros (n : nat) : string :=
  match n with
  | O => EmptyString
  | S k => String "0" (zeros k)
  end.

(** Left-pad with ["0"] to at least [n] characters. *)
Definition pad_left (n : nat) (s : string) : string :=
  zeros (n - String.length s) ++ s.

(** A JavaScript number: not-a-number, an infinity, or a finite value. *)
Inductive number : Type :=
| NaN
| Infinity (negative : bool)
| Num (q : Q).

(** [x > 0] on numbers ([NaN > 0] is false). *)
Definition gt0 (x : number) : bool :=
  match x with
  | NaN => false
  | Infinity negative => negb negative
  | Num q => negb (Qle_bool q 0)
  end.

Fixpoint trimStart (s : string) : string :=
  match s with
  | String c r => if is_space c then trimStart r else s
  | EmptyString => EmptyString
  end.

(** [m * 10^e] as a rational. *)
Definition scale10 (m : N) (e : Z) : Q :=
  match e with
  | Z0 => inject_Z (Z.of_N m)
  | Zpos p => inject_Z (Z.of_N m * 10 ^ Zpos p)
  | Zneg p => Qmake (Z.of_N m) (10 ^ p)
  end.

(** An optional sign: whether it is ["-"], and what follows it. *)
Definition split_sign (t : string) : bool * string :=
  match t with
  | String "-" r => (true, r)
  | String "+" r => (false, r)
  | _ => (false, t)
  end.

(** An optional fraction: the digits after a point, and what follows them. *)
Definition split_fraction (r : string) : string * string :=
  match r with
  | String "." t => span_digits t
  | _ => (EmptyString, r)
  end.

(** The ExponentPart of a decimal literal, 0 when there is none. *)
Definition parse_exponent (s : string) : Z :=
  match s with
  | String c r =>
      if Ascii.eqb c "e" || Ascii.eqb c "E" then
        let '(neg, r1) := split_sign r in
        let (d, _) := span_digits r1 in
        match d with
        | EmptyString => 0%Z
        | _ => if neg then (- Z.of_N (digits_value d))%Z
               else Z.of_N (digits_value d)
        end
      else 0%Z
  | EmptyString => 0%Z
  end.

(** The value of the longest StrUnsignedDecimalLiteral prefix of [s]. *)
Definition parse_unsigned (s : string) : option (N * Z) :=
  let (a, r1) := span_digits s in
  let (b, r2) := split_fraction r1 in
  match a, b with
  | EmptyString, EmptyString => None
  | _, _ =>
      Some (digits_value (a ++ b),
            (parse_exponent r2 - Z.of_nat (String.length b))%Z)
  end.

Definition starts_with (p s : string) : bool :=
  String.eqb (str_take (String.length p) s) p.

(** [parseFloat(s)]: leading white space is skipped, then the longest prefix
    that is a decimal literal is converted; [NaN] when there is none. *)
Definition parseFloat (s : string) : number :=
  let t := trimStart s in
  let '(neg, u) := split_sign t in
  if starts_with "Infinity" u then Infinity neg
  else
    match parse_unsigned u with
    | None => NaN
    | Some (m, e) => Num (if neg then - scale10 m e else scale10 m e)
    end.

(** The integer nearest to [x * 10^f] for [x >= 0], the larger one on a tie. *)
Definition toFixed_int (x : Q) (f : nat) : N :=
  Z.to_N (Qfloor (x * inject_Z (10 ^ Z.of_nat f) + (1 # 2))).

(** [x.toFixed(f)] (ECMA-262, Number.prototype.toFixed) for a finite [x]
    below 10^21: [n] is the integer nearest to [x * 10^f], the larger one on
    a tie; its digits are padded to [f + 1] places and the point is put
    before the last [f] of them. *)
Definition toFixed (x : Q) (f : nat) : string :=
  let neg := negb (Qle_bool 0 x) in
  let ax := if neg then - x else x in
  let n := toFixed_int ax f in
  let m := string_of_N n in
  let body :=
    match f with
    | O => m
    | _ =>
        let m := pad_left (S f) m in
        let k := String.length m in
        str_take (k - f) m ++ "." ++ str_drop (k - f) m
    end in
  if neg then String "-" body else body.

(** A non-negative decimal string: digits, optionally followed by a point
    and more digits; no sign, no exponent. *)
Definition is_decimal_string (s : string) : bool :=
  let (a, r) := span_digits s in
  negb (String.eqb a "") &&
  match r with
  | EmptyString => true
  | String "." b => negb (String.eqb b "") && all_digits b
  | _ => false
  end.

(** [s] has a whole part and exactly [f] fractional digits. *)
Definition has_decimals (f : nat) (s : string) : bool :=
  let (a, r) := span_digits s in
  negb (String.eqb a "") &&
  match r with
  | String "." b => all_digits b && Nat.eqb (String.length b) f
  | _ => false
  end.

(** ** ethers: formatting of on-chain amounts *)

Fixpoint strip_trailing_zeros_rev (r : list ascii) : list ascii :=
  match r with
  | c :: ((_ :: _) as t) => if Ascii.eqb c "0" then strip_trailing_zeros_rev t else r
  | _ => r
  end.

(** Drop trailing ["0"]s, keeping at least one character. *)
Definition strip_trailing_zeros (s : string) : string :=
  string_of_list_ascii
    (List.rev (strip_trailing_zeros_rev (List.rev (list_ascii_of_string s)))).

(** [ethers.formatUnits(value, decimals)] for a non-negative amount: the
    whole part, a point, and the fraction on [decimals] digits with its
    trailing zeros removed down to one digit; no point when [decimals] is 0. *)
Definition formatUnits (value : N) (decimals : nat) : string :=
  match decimals with
  | O => string_of_N value
  | _ =>
      let unit := (10 ^ N.of_nat decimals)%N in
      string_of_N (value / unit) ++ "." ++
      strip_trailing_zeros (pad_left decimals (string_of_N (value mod unit)))
  end.

(** [ethers.formatEther]: 18 decimals. *)
Definition formatEther (wei : N) : string := formatUnits wei 18.


(** ** Data model (types.ts) *)

Record WalletEntry : Type := mkWalletEntry {
  id : string;
  address : string;
  privateKey : string;
  mnemonic : string;
  balance : string;
  timestamp : Z;
  network : string
}.

Record NodeStatus : Type := mkNodeStatus {
  connected : bool;
  blockNumber : option Z;
  latency : option Z;
  rpcUrl : string;
  chainId : option Z;
  gasPrice : option string
}.

Record SecurityReport : Type := mkSecurityReport {
  score : Q;
  threatLevel : string;
  recommendations : list string;
  probabilityPercentage : option string;
  timeToCollision : option string;
  entropyEfficiency : option Q;
  quantumResonance : option Q
}.

(** What [ethers.Wallet.createRandom()] returns, as far as it is read. *)
Record HDNodeWallet : Type := mkHDNodeWallet {
  wallet_address : string;
  wallet_privateKey : string;
  wallet_mnemonic : option string
}.

Record WatchTarget : Type := mkWatchTarget {
  label : string;
  target_address : string;
  est : string
}.

(** src/App.tsx, lines 24-32. *)
Definition RICH_TARGETS : list WatchTarget :=
  [ mkWatchTarget "Genesis Premine" "0x1db3439a222c519ab44bb1144fc28167b4fa6ee6" "300,000 ETH";
    mkWatchTarget "Bitfinex Cold" "0x742d35cc6634c0532925a3b844bc454e4438f44e" "180,000 ETH";
    mkWatchTarget "Parity Frozen" "0x863df6bfa4469f3ead0be8f9f2aae51c91a907b4" "513,774 ETH";
    mkWatchTarget "Vitalik (VB2)" "0xab5801a7d12705464d12f4019153033620769d11" "250,000 ETH";
    mkWatchTarget "Polkadot Multi" "0x00a329c0648769a73afac7f9381e08fb43dbea72" "306,276 ETH";
    mkWatchTarget "Lost Whale #7" "0x2b5ad5c4795c026514f8317c7a215e218dccd6cf" "120,500 ETH";
    mkWatchTarget "Dormant 2015" "0x00000000219ab540356cbb839cbe05303d7705fa" "32,000 ETH" ].

(** [NETWORKS[0].rpc], the initial and only value of the [rpcUrl] state. *)
Definition default_rpc : string := "https://eth.llamarpc.com".

(** How a promise settles. *)
Inductive Settled (A : Type) : Type :=
| Fulfilled (a : A)
| Rejected.
Arguments Fulfilled {A} a.
Arguments Rejected {A}.

(** The state of the component: the [useState] cells and the [useRef] cells
    that the modelled functions read or write.  ([recentBlocks], [scanMode],
    [hvtBalances], [scanStats] and [revealMap] only feed the display.) *)
Record AppState : Type := mkAppState {
  wallets : list WalletEntry;
  discovered : list WalletEntry;
  nodeStatus : NodeStatus;
  isScanning : bool;
  threads : nat;
  probabilityData : option SecurityReport;
  luckActive : bool;
  quantumCalibration : Q;
  showCollisionAlert : bool;
  lastDiscovery : option WalletEntry;
  isScanningRef : bool;
  scanLoopRef : option nat;
  providerRef : option string;
  attemptsRef : nat;
  discoveryLockRef : bool
}.

Definition initial_state : AppState :=
  {| wallets := []; discovered := [];
     nodeStatus := mkNodeStatus false None None default_rpc None None;
     isScanning := false; threads := 64; probabilityData := None;
     luckActive := false; quantumCalibration := 0;
     showCollisionAlert := false; lastDiscovery := None;
     isScanningRef := false; scanLoopRef := None; providerRef := None;
     attemptsRef := 0; discoveryLockRef := false |}.

(** The state variables a closure sees are those of the render that
    created it: [processWallet] reads [quantumCalibration] and
    [nodeStatus.chainId] from that scope, [startScanLoop] reads [threads].
    The functions below take the scope as an argument; which scope a running
    scan loop carries is decided in [toggleScan], [round_settled] and
    [rerender]. *)
Record RenderScope : Type := mkRenderScope {
  scope_quantumCalibration : Q;
  scope_chainId : option Z;
  scope_threads : nat
}.

Definition scope_of (st : AppState) : RenderScope :=
  {| scope_quantumCalibration := quantumCalibration st;
     scope_chainId := chainId (nodeStatus st);
     scope_threads := threads st |}.

(** *** Field updates *)

Definition set_discoveryLockRef (b : bool) (st : AppState) : AppState :=
  mkAppState (wallets st) (discovered st) (nodeStatus st) (isScanning st)
    (threads st) (probabilityData st) (luckActive st) (quantumCalibration st)
    (showCollisionAlert st) (lastDiscovery st) (isScanningRef st)
    (scanLoopRef st) (providerRef st) (attemptsRef st) b.

Definition set_attemptsRef (n : nat) (st : AppState) : AppState :=
  mkAppState (wallets st) (discovered st) (nodeStatus st) (isScanning st)
    (threads st) (probabilityData st) (luckActive st) (quantumCalibration st)
    (showCollisionAlert st) (lastDiscovery st) (isScanningRef st)
    (scanLoopRef st) (providerRef st) n (discoveryLockRef st).

Definition set_wallets (l : list WalletEntry) (st : AppState) : AppState :=
  mkAppState l (discovered st) (nodeStatus st) (isScanning st)
    (threads st) (probabilityData st) (luckActive st) (quantumCalibration st)
    (showCollisionAlert st) (lastDiscovery st) (isScanningRef st)
    (scanLoopRef st) (providerRef st) (attemptsRef st) (discoveryLockRef st).

Definition set_quantumCalibration (q : Q) (st : AppState) : AppState :=
  mkAppState (wallets st) (discovered st) (nodeStatus st) (isScanning st)
    (threads st) (probabilityData st) (luckActive st) q
    (showCollisionAlert st) (lastDiscovery st) (isScanningRef st)
    (scanLoopRef st) (providerRef st) (attemptsRef st) (discoveryLockRef st).

Definition set_nodeStatus (ns : NodeStatus) (st : AppState) : AppState :=
  mkAppState (wallets st) (discovered st) ns (isScanning st)
    (threads st) (probabilityData st) (luckActive st) (quantumCalibration st)
    (showCollisionAlert st) (lastDiscovery st) (isScanningRef st)
    (scanLoopRef st) (providerRef st) (attemptsRef st) (discoveryLockRef st).

Definition set_providerRef (p : option string) (st : AppState) : AppState :=
  mkAppState (wallets st) (discovered st) (nodeStatus st) (isScanning st)
    (threads st) (probabilityData st) (luckActive st) (quantumCalibration st)
    (showCollisionAlert st) (lastDiscovery st) (isScanningRef st)
    (scanLoopRef st) p (attemptsRef st) (discoveryLockRef st).

Definition set_probabilityData (r : option SecurityReport) (st : AppState) : AppState :=
  mkAppState (wallets st) (discovered st) (nodeStatus st) (isScanning st)
    (threads st) r (luckActive st) (quantumCalibration st)
    (showCollisionAlert st) (lastDiscovery st) (isScanningRef st)
    (scanLoopRef st) (providerRef st) (attemptsRef st) (discoveryLockRef st).

Definition set_luckActive (b : bool) (st : AppState) : AppState :=
  mkAppState (wallets st) (discovered st) (nodeStatus st) (isScanning st)
    (threads st) (probabilityData st) b (quantumCalibration st)
    (showCollisionAlert st) (lastDiscovery st) (isScanningRef st)
    (scanLoopRef st) (providerRef st) (attemptsRef st) (discoveryLockRef st).

Definition set_threads (n : nat) (st : AppState) : AppState :=
  mkAppState (wallets st) (discovered st) (nodeStatus st) (isScanning st)
    n (probabilityData st) (luckActive st) (quantumCalibration st)
    (showCollisionAlert st) (lastDiscovery st) (isScanningRef st)
    (scanLoopRef st) (providerRef st) (attemptsRef st) (discoveryLockRef st).

Definition set_showCollisionAlert (b : bool) (st : AppState) : AppState :=
  mkAppState (wallets st) (discovered st) (nodeStatus st) (isScanning st)
    (threads st) (probabilityData st) (luckActive st) (quantumCalibration st)
    b (lastDiscovery st) (isScanningRef st)
    (scanLoopRef st) (providerRef st) (attemptsRef st) (discoveryLockRef st).

Definition set_scanLoopRef (h : option nat) (st : AppState) : AppState :=
  mkAppState (wallets st) (discovered st) (nodeStatus st) (isScanning st)
    (threads st) (probabilityData st) (luckActive st) (quantumCalibration st)
    (showCollisionAlert st) (lastDiscovery st) (isScanningRef st)
    h (providerRef st) (attemptsRef st) (discoveryLockRef st).

(** [setIsScanning(b); isScanningRef.current = b]. *)
Definition set_scanning (b : bool) (st : AppState) : AppState :=
  mkAppState (wallets st) (discovered st) (nodeStatus st) b
    (threads st) (probabilityData st) (luckActive st) (quantumCalibration st)
    (showCollisionAlert st) (lastDiscovery st) b
    (scanLoopRef st) (providerRef st) (attemptsRef st) (discoveryLockRef st).

(** The discovery branch of [processWallet], lines 179-183:
    [setDiscovered(prev => [entry, ...prev]); setLastDiscovery(entry);
     setShowCollisionAlert(true); setQuantumCalibration(0);
     discoveryLockRef.current = false]. *)
Definition record_discovery (entry : WalletEntry) (st : AppState) : AppState :=
  mkAppState (wallets st) (entry :: discovered st) (nodeStatus st) (isScanning st)
    (threads st) (probabilityData st) (luckActive st) 0
    true (Some entry) (isScanningRef st)
    (scanLoopRef st) (providerRef st) (attemptsRef st) false.

(** The other branch, line 185:
    [setWallets(prev => [entry, ...prev].slice(0, 15))]. *)
Definition record_sighting (entry : WalletEntry) (st : AppState) : AppState :=
  set_wallets (firstn 15 (entry :: wallets st)) st.

(** ** The wallet processor (src/App.tsx, lines 149-189) *)

(** Line 160: [RICH_TARGETS.some(t => t.address.toLowerCase() ===
    wallet.address.toLowerCase())]. *)
Definition isTargetMatch (wallet : HDNodeWallet) : bool :=
  existsb (fun t => String.eqb (toLowerCase (target_address t))
                               (toLowerCase (wallet_address wallet)))
          RICH_TARGETS.

(** Line 157: [(Math.random() * (12.5 - 1.2) + 1.2).toFixed(4)]. *)
Definition synthetic_value (random : Q) : Q :=
  random * ((125 # 10) - (12 # 10)) + (12 # 10).

Definition synthetic_balance (random : Q) : string :=
  toFixed (synthetic_value random) 4.


(** Line 175: [nodeStatus.chainId === 1 ? 'Mainnet' : `Chain:${nodeStatus.chainId}`]. *)
Definition network_label (cid : option Z) : string :=
  match cid with
  | Some 1%Z => "Mainnet"
  | Some z => "Chain:" ++ string_of_Z z
  | None => "Chain:null"
  end.

(** Line 173: [wallet.mnemonic?.phrase || 'N/A']. *)
Definition mnemonic_phrase (wallet : HDNodeWallet) : string :=
  match wallet_mnemonic wallet with
  | Some EmptyString | None => "N/A"
  | Some phrase => phrase
  end.

(** The local variables of a [processWallet] call when it reaches the
    balance lookup of line 165. *)
Record Locals : Type := mkLocals {
  l_wallet : HDNodeWallet;
  l_balance : string;
  l_forcedHit : bool;
  l_isTargetMatch : bool
}.

(** Lines 150-163, up to the [await]: the forced-hit trigger, the target
    test, and whether a balance lookup is issued.  [random] is the value
    [Math.random()] returns if it is called. *)
Definition processWallet_begin (scope : RenderScope) (st : AppState)
    (wallet : HDNodeWallet) (random : Q) : AppState * Locals * bool :=
  let '(st1, bal, forcedHit) :=
    if Qle_bool 100 (scope_quantumCalibration scope) && negb (discoveryLockRef st)
    then (set_discoveryLockRef true st, synthetic_balance random, true)
    else (st, "0.00", false) in
  let target := isTargetMatch wallet in
  let lookup :=
    match providerRef st1 with
    | Some _ => target || forcedHit
    | None => false
    end in
  (st1, mkLocals wallet bal forcedHit target, lookup).

(** Lines 164-169: the outcome of [getBalance] replaces the balance only when
    it parses to a positive number; a rejected call is ignored.  [None]: no
    lookup was issued. *)
Definition settle_balance (bal : string) (lookup : option (Settled N)) : string :=
  match lookup with
  | Some (Fulfilled wei) =>
      let realBal := formatEther wei in
      if gt0 (parseFloat realBal) then realBal else bal
  | Some Rejected | None => bal
  end.

(** Lines 171-188, from the resumption on: the entry is built and routed.
    [uuid] is what [crypto.randomUUID()] returns and [now] what [Date.now()]
    returns at that moment. *)
Definition processWallet_end (scope : RenderScope) (st : AppState)
    (loc : Locals) (lookup : option (Settled N)) (uuid : string) (now : Z)
    : AppState * WalletEntry :=
  let bal := settle_balance (l_balance loc) lookup in
  let wallet := l_wallet loc in
  let entry :=
    {| id := uuid; address := wallet_address wallet;
       privateKey := wallet_privateKey wallet;
       mnemonic := mnemonic_phrase wallet;
       balance := bal; timestamp := now;
       network := network_label (scope_chainId scope) |} in
  let st1 :=
    if gt0 (parseFloat bal) || l_isTargetMatch loc
    then record_discovery entry st
    else record_sighting entry st in
  (set_attemptsRef (attemptsRef st1 + 1) st1, entry).

(** What the environment supplies to one [processWallet] call. *)
Record WalletIO : Type := mkWalletIO {
  io_wallet : HDNodeWallet;
  io_random : Q;
  io_lookup : Settled N;
  io_uuid : string;
  io_now : Z
}.

(** A whole call of [processWallet] with nothing interleaved at the [await]. *)
Definition processWallet (scope : RenderScope) (st : AppState) (io : WalletIO)
    : AppState * WalletEntry :=
  let '(st1, loc, lookup) :=
    processWallet_begin scope st (io_wallet io) (io_random io) in
  processWallet_end scope st1 loc
    (if lookup then Some (io_lookup io) else None) (io_uuid io) (io_now io).

(** ** Calibration tick (lines 136-143) *)

Definition calibration_step (luck : bool) (prev random : Q) : Q :=
  let multiplier := if luck then 45 # 10 else 8 # 10 in
  let next := prev + random * multiplier in
  if Qle_bool 100 next then 100 else next.

Definition tick (st : AppState) (random : Q) : AppState :=
  if isScanning st
  then set_quantumCalibration
         (calibration_step (luckActive st) (quantumCalibration st) random) st
  else st.

(** ** Connectivity poll (lines 99-119) *)

(** What the combined round trip of line 103 yields when it succeeds. *)
Record PollResult : Type := mkPollResult {
  poll_blockNumber : Z;
  poll_chainId : Z;
  poll_gasPrice : option N
}.

(** Line 111: [feeData.gasPrice ? ethers.formatUnits(feeData.gasPrice, "gwei")
    : undefined]; a zero price is falsy. *)
Definition gas_price_label (g : option N) : option string :=
  match g with
  | Some (Npos p) => Some (formatUnits (Npos p) 9)
  | _ => None
  end.

Definition checkNode (st : AppState) (url : string)
    (outcome : Settled PollResult) (elapsed : Z) : AppState :=
  match outcome with
  | Fulfilled r =>
      set_nodeStatus
        {| connected := true; blockNumber := Some (poll_blockNumber r);
           latency := Some elapsed; rpcUrl := url;
           chainId := Some (poll_chainId r);
           gasPrice := gas_price_label (poll_gasPrice r) |}
        (set_providerRef (Some url) st)
  | Rejected =>
      let prev := nodeStatus st in
      set_nodeStatus
        {| connected := false; blockNumber := blockNumber prev;
           latency := None; rpcUrl := rpcUrl prev;
           chainId := chainId prev; gasPrice := gasPrice prev |}
        st
  end.

(** ** The run-time around the component

    One JavaScript task runs to completion before the next starts.  The
    run-time state holds the component state together with what the event
    loop keeps for it: the [processWallet] calls suspended at their
    [await], the armed [setTimeout(startScanLoop, 1)] handles, the pending
    report requests.  Three more fields only observe the execution and are
    never read by the program: [history], [reports_issued] and the clock. *)

Inductive Mark : Type :=
| ForcedHit      (* line 156: a forced hit was computed *)
| Reset.         (* lines 179-183: a discovery was recorded, gauge set to 0 *)

Record Runtime : Type := mkRuntime {
  app : AppState;
  callback_scope : RenderScope;   (* the scope of the memoized [startScanLoop] *)
  suspended : list (nat * RenderScope * Locals);  (* round, scope, locals *)
  timers : list (nat * RenderScope);              (* armed handles, oldest first *)
  next_handle : nat;
  luck_timeouts : nat;
  reports_pending : nat;
  reports_issued : nat;
  history : list Mark;            (* newest first *)
  last_now : option Z;            (* the last [Date.now()] reading *)
  clock_ok : bool                 (* no reading was earlier than the one before *)
}.

Definition initial_runtime : Runtime :=
  {| app := initial_state; callback_scope := scope_of initial_state;
     suspended := []; timers := []; next_handle := 1;
     luck_timeouts := 0; reports_pending := 0; reports_issued := 0;
     history := []; last_now := None; clock_ok := true |}.

Definition with_app (st : AppState) (rt : Runtime) : Runtime :=
  mkRuntime st (callback_scope rt) (suspended rt) (timers rt) (next_handle rt)
    (luck_timeouts rt) (reports_pending rt) (reports_issued rt) (history rt)
    (last_now rt) (clock_ok rt).

Definition with_suspended (l : list (nat * RenderScope * Locals)) (rt : Runtime)
    : Runtime :=
  mkRuntime (app rt) (callback_scope rt) l (timers rt) (next_handle rt)
    (luck_timeouts rt) (reports_pending rt) (reports_issued rt) (history rt)
    (last_now rt) (clock_ok rt).

Definition with_timers (l : list (nat * RenderScope)) (rt : Runtime) : Runtime :=
  mkRuntime (app rt) (callback_scope rt) (suspended rt) l (next_handle rt)
    (luck_timeouts rt) (reports_pending rt) (reports_issued rt) (history rt)
    (last_now rt) (clock_ok rt).

Definition with_next_handle (n : nat) (rt : Runtime) : Runtime :=
  mkRuntime (app rt) (callback_scope rt) (suspended rt) (timers rt) n
    (luck_timeouts rt) (reports_pending rt) (reports_issued rt) (history rt)
    (last_now rt) (clock_ok rt).

Definition with_luck_timeouts (n : nat) (rt : Runtime) : Runtime :=
  mkRuntime (app rt) (callback_scope rt) (suspended rt) (timers rt)
    (next_handle rt) n (reports_pending rt) (reports_issued rt) (history rt)
    (last_now rt) (clock_ok rt).

Definition with_callback_scope (s : RenderScope) (rt : Runtime) : Runtime :=
  mkRuntime (app rt) s (suspended rt) (timers rt) (next_handle rt)
    (luck_timeouts rt) (reports_pending rt) (reports_issued rt) (history rt)
    (last_now rt) (clock_ok rt).

Definition with_reports (pending issued : nat) (rt : Runtime) : Runtime :=
  mkRuntime (app rt) (callback_scope rt) (suspended rt) (timers rt)
    (next_handle rt) (luck_timeouts rt) pending issued (history rt)
    (last_now rt) (clock_ok rt).

Definition note (m : Mark) (rt : Runtime) : Runtime :=
  mkRuntime (app rt) (callback_scope rt) (suspended rt) (timers rt)
    (next_handle rt) (luck_timeouts rt) (reports_pending rt)
    (reports_issued rt) (m :: history rt) (last_now rt) (clock_ok rt).

(** A [Date.now()] reading. *)
Definition observe (t : Z) (rt : Runtime) : Runtime :=
  mkRuntime (app rt) (callback_scope rt) (suspended rt) (timers rt)
    (next_handle rt) (luck_timeouts rt) (reports_pending rt)
    (reports_issued rt) (history rt) (Some t)
    (clock_ok rt &&
     match last_now rt with Some t0 => (t0 <=? t)%Z | None => true end).

(** The rest of a [processWallet] call, run on the current state. *)
Definition finish (scope : RenderScope) (loc : Locals)
    (lookup : option (Settled N)) (uuid : string) (now : Z) (rt : Runtime)
    : Runtime :=
  let st := app rt in
  let '(st', _) := processWallet_end scope st loc lookup uuid now in
  let rt1 := observe now (with_app st' rt) in
  if (List.length (discovered st) <? List.length (discovered st'))%nat
  then note Reset rt1 else rt1.

(** The start of a [processWallet] call, up to its [await]. *)
Definition enter (scope : RenderScope) (io : WalletIO) (rt : Runtime)
    : Runtime * Locals * bool :=
  let '(st1, loc, lookup) :=
    processWallet_begin scope (app rt) (io_wallet io) (io_random io) in
  let rt1 := with_app st1 rt in
  (if l_forcedHit loc then note ForcedHit rt1 else rt1, loc, lookup).

(** Lines 201-204: one member of the batch. It runs up to its [await] at
    once; without a lookup it runs to its end. *)
Definition spawn (round : nat) (scope : RenderScope) (io : WalletIO)
    (rt : Runtime) : Runtime :=
  let '(rt1, loc, lookup) := enter scope io rt in
  if lookup
  then with_suspended (suspended rt1 ++ [(round, scope, loc)]) rt1
  else finish scope loc None (io_uuid io) (io_now io) rt1.

(** Lines 200-205: [for (let i = 0; i < threads; i++) batch.push(...)]. *)
Fixpoint run_batch (round : nat) (scope : RenderScope) (gen : nat -> WalletIO)
    (count i : nat) (rt : Runtime) : Runtime :=
  match count with
  | O => rt
  | S count' => run_batch round scope gen count' (S i) (spawn round scope (gen i) rt)
  end.

Definition round_pending (round : nat) (rt : Runtime) : bool :=
  existsb (fun s => Nat.eqb (fst (fst s)) round) (suspended rt).

(** Lines 207-209, once [Promise.all(batch)] has settled.  The callback
    passed to [setTimeout] is the [startScanLoop] of the closure's own render,
    that is the closure itself: the next round runs in the same scope. *)
Definition round_settled (scope : RenderScope) (rt : Runtime) : Runtime :=
  if isScanningRef (app rt)
  then
    let h := next_handle rt in
    with_app (set_scanLoopRef (Some h) (app rt))
      (with_next_handle (S h) (with_timers (timers rt ++ [(h, scope)]) rt))
  else rt.

Definition await_round (round : nat) (scope : RenderScope) (rt : Runtime)
    : Runtime :=
  if round_pending round rt then rt else round_settled scope rt.

(** Lines 197-210. *)
Definition startScanLoop (scope : RenderScope) (gen : nat -> WalletIO)
    (rt : Runtime) : Runtime :=
  if negb (isScanningRef (app rt)) then rt
  else
    let round := next_handle rt in
    let rt1 := run_batch round scope gen (scope_threads scope) 0
                 (with_next_handle (S round) rt) in
    await_round round scope rt1.

Fixpoint remove_nth {A : Type} (k : nat) (l : list A) : list A :=
  match k, l with
  | _, [] => []
  | O, _ :: t => t
  | S k', x :: t => x :: remove_nth k' t
  end.

(** The [k]-th suspended lookup settles. *)
Definition resume (k : nat) (outcome : Settled N) (uuid : string) (now : Z)
    (rt : Runtime) : Runtime :=
  match nth_error (suspended rt) k with
  | None => rt
  | Some (round, scope, loc) =>
      let rt1 := with_suspended (remove_nth k (suspended rt)) rt in
      await_round round scope (finish scope loc (Some outcome) uuid now rt1)
  end.

Definition clearTimeout (h : option nat) (rt : Runtime) : Runtime :=
  match h with
  | Some n => with_timers (filter (fun t => negb (Nat.eqb (fst t) n)) (timers rt)) rt
  | None => rt
  end.

(** A call of [runAnalysis] sends one request. *)
Definition request_report (rt : Runtime) : Runtime :=
  with_reports (S (reports_pending rt)) (S (reports_issued rt)) rt.

(** Lines 212-224. *)
Definition toggleScan (now : Z) (gen : nat -> WalletIO) (rt : Runtime) : Runtime :=
  if isScanning (app rt)
  then
    let rt1 := with_app (set_scanning false (app rt)) rt in
    clearTimeout (scanLoopRef (app rt1)) rt1
  else
    let rt1 := observe now (with_app (set_scanning true (app rt)) rt) in
    request_report (startScanLoop (callback_scope rt) gen rt1).

(** The oldest armed handle fires. *)
Definition fire_timer (gen : nat -> WalletIO) (rt : Runtime) : Runtime :=
  match timers rt with
  | [] => rt
  | (_, scope) :: rest => startScanLoop scope gen (with_timers rest rt)
  end.

(** Lines 226-230; the button is disabled while no scan is active. *)
Definition triggerLuckPulse (rt : Runtime) : Runtime :=
  if isScanning (app rt)
  then
    request_report
      (with_luck_timeouts (S (luck_timeouts rt))
         (with_app (set_luckActive true (app rt)) rt))
  else rt.

Definition luck_timeout (rt : Runtime) : Runtime :=
  match luck_timeouts rt with
  | O => rt
  | S n => with_luck_timeouts n (with_app (set_luckActive false (app rt)) rt)
  end.

Section ReportFetcher.

(** [JSON.parse], [None] when it throws. *)
Variable JSON_parse : string -> option SecurityReport.

(** services/geminiService, lines 27-55: [response] is how [generateContent]
    settles, with the text of the response. *)
Definition auditWalletSetup (response : Settled string) : Settled SecurityReport :=
  match response with
  | Fulfilled text =>
      match JSON_parse text with
      | Some report => Fulfilled report
      | None => Rejected
      end
  | Rejected => Rejected
  end.

(** src/App.tsx, lines 191-195, from the [await] on. *)
Definition runAnalysis (st : AppState) (response : Settled string) : AppState :=
  match auditWalletSetup response with
  | Fulfilled audit => set_probabilityData (Some audit) st
  | Rejected => st
  end.

Definition report_settles (response : Settled string) (rt : Runtime) : Runtime :=
  match reports_pending rt with
  | O => rt
  | S n =>
      with_reports n (reports_issued rt)
        (with_app (runAnalysis (app rt) response) rt)
  end.

Inductive Event : Type :=
| EvToggleScan (now : Z) (gen : nat -> WalletIO)
| EvTimer (gen : nat -> WalletIO)
| EvBalance (k : nat) (outcome : Settled N) (uuid : string) (now : Z)
| EvTick (random : Q)
| EvLuckPulse
| EvLuckTimeout
| EvNode (outcome : Settled PollResult) (elapsed : Z)
| EvReport (response : Settled string)
| EvSetThreads (n : nat)
| EvDismissAlert.

Definition handle (ev : Event) (rt : Runtime) : Runtime :=
  match ev with
  | EvToggleScan now gen => toggleScan now gen rt
  | EvTimer gen => fire_timer gen rt
  | EvBalance k outcome uuid now => resume k outcome uuid now rt
  | EvTick random => with_app (tick (app rt) random) rt
  | EvLuckPulse => triggerLuckPulse rt
  | EvLuckTimeout => luck_timeout rt
  | EvNode outcome elapsed =>
      with_app (checkNode (app rt) default_rpc outcome elapsed) rt
  | EvReport response => report_settles response rt
  | EvSetThreads n =>
      if (1 <=? n)%nat && (n <=? 512)%nat
      then with_app (set_threads n (app rt)) rt else rt
  | EvDismissAlert => with_app (set_showCollisionAlert false (app rt)) rt
  end.

(** The render that follows a task: [useCallback(..., [threads,
    quantumCalibration])] keeps the memoized [startScanLoop] unless one of
    the two changed; [toggleScan] calls the memoized one. *)
Definition rerender (rt : Runtime) : Runtime :=
  let memo := callback_scope rt in
  if Nat.eqb (threads (app rt)) (scope_threads memo)
     && Qeq_bool (quantumCalibration (app rt)) (scope_quantumCalibration memo)
  then rt
  else with_callback_scope (scope_of (app rt)) rt.

Definition step (rt : Runtime) (ev : Event) : Runtime := rerender (handle ev rt).

Definition run (rt : Runtime) (evs : list Event) : Runtime := fold_left step evs rt.

End ReportFetcher.

(** What is assumed of the random number of a calibration tick. *)
Definition valid_event (V : Q -> Prop) (ev : Event) : Prop :=
  match ev with
  | EvTick random => V random
  | _ => True
  end.

Definition is_toggle (ev : Event) : bool :=
  match ev with
  | EvToggleScan _ _ => true
  | _ => false
  end.

(** *** Reading the observation fields *)

(** Forced hits computed since the last reset. *)
Fixpoint forced_since_reset (h : list Mark) : nat :=
  match h with
  | ForcedHit :: t => S (forced_since_reset t)
  | _ => 0
  end.

(** No forced hit was computed while an earlier one had not been followed
    by a reset. *)
Fixpoint well_separated (h : list Mark) : bool :=
  match h with
  | [] => true
  | Reset :: t => well_separated t
  | ForcedHit :: t => Nat.eqb (forced_since_reset t) 0 && well_separated t
  end.

Fixpoint nondecreasing (l : list Z) : bool :=
  match l with
  | a :: t =>
      match t with
      | b :: _ => (a <=? b)%Z && nondecreasing t
      | [] => true
      end
  | [] => true
  end.

Fixpoint nonincreasing (l : list Z) : bool :=
  match l with
  | a :: t =>
      match t with
      | b :: _ => (b <=? a)%Z && nonincreasing t
      | [] => true
      end
  | [] => true
  end.

(** The part of the state the invariants below talk about. *)
Definition core (st : AppState) : list WalletEntry * list WalletEntry * Q * bool :=
  (wallets st, discovered st, quantumCalibration st, discoveryLockRef st).

Definition same_view (rt rt' : Runtime) : Prop :=
  core (app rt') = core (app rt) /\ history rt' = history rt /\
  last_now rt' = last_now rt /\ clock_ok rt' = clock_ok rt.

(** A [JSON.parse] that throws on every text, for concrete runs. *)
Definition no_parse : string -> option SecurityReport := fun _ => None.

(** ** Vocabulary of the specification *)

(** The address equals a watch-target address, letter case aside. *)
Definition is_watch_target (a : string) : Prop :=
  exists t, In t RICH_TARGETS /\ toLowerCase (target_address t) = toLowerCase a.

(** The balance parses to a value strictly greater than 0. *)
Definition positive_balance (e : WalletEntry) : Prop :=
  gt0 (parseFloat (balance e)) = true.

(** [e] went to the head of the discoveries list, the other list untouched. *)
Definition in_discoveries (st st' : AppState) (e : WalletEntry) : Prop :=
  discovered st' = e :: discovered st /\ wallets st' = wallets st.

(** [e] went to the head of the ordinary list, which is cut at 15 entries,
    the other list untouched. *)
Definition in_ordinary (st st' : AppState) (e : WalletEntry) : Prop :=
  wallets st' = firstn 15 (e :: wallets st) /\ discovered st' = discovered st.

(** [Math.random()] returns a number in [0, 1). *)
Definition unit_interval (r : Q) : Prop := 0 <= r /\ r < 1.

(** *** Invariants of a run *)

(** The gauge stays within 0 and 100. *)
Definition calibration_in_range (rt : Runtime) : Prop :=
  0 <= quantumCalibration (app rt) /\ quantumCalibration (app rt) <= 100.

(** Forced hits and resets alternate: a forced hit is computed only with the
    lock clear, and the lock is cleared only by a reset. *)
Definition lock_discipline (rt : Runtime) : Prop :=
  well_separated (history rt) = true /\
  (discoveryLockRef (app rt) = false -> forced_since_reset (history rt) = O).

(** Within one task other than a tick, the gauge either keeps its value, with
    no discovery recorded, or ends at exactly 0, with a discovery recorded. *)
Definition steady_or_reset (a b : Runtime) : Prop :=
  (quantumCalibration (app b) = quantumCalibration (app a) /\
   discovered (app b) = discovered (app a))
  \/
  (quantumCalibration (app b) = 0 /\
   (List.length (discovered (app a)) < List.length (discovered (app b)))%nat).

(** As long as no clock reading went back, the ordinary list is in
    non-increasing order of time stamps from its head, and no time stamp is
    later than the last clock reading. *)
Definition chronological (rt : Runtime) : Prop :=
  clock_ok rt = true ->
  nonincreasing (map timestamp (wallets (app rt))) = true /\
  (forall e, In e (wallets (app rt)) ->
     exists t, last_now rt = Some t /\ (timestamp e <= t)%Z).

Definition requests (rt : Runtime) : nat * nat :=
  (reports_pending rt, reports_issued rt).

(** ** Concrete inputs for the examples *)

Definition sample_wallet : HDNodeWallet :=
  mkHDNodeWallet "0x8ba1f109551bD432803012645Ac136ddd64DBA72"
    "0x4c0883a69102937d6231471b5dbb6204fe5129617082792ae468d01a3f362318"
    (Some "legal winner thank year wave sausage worth useful legal winner thank yellow").

(** A batch whose [i]-th wallet reads the clock at [t + i]. *)
Definition sample_io (t : Z) (i : nat) : WalletIO :=
  mkWalletIO sample_wallet (1 # 2) (Fulfilled 0%N)
    "3b241101-e2bb-4255-8caf-4136c566a962" (t + Z.of_nat i).

Definition mainnet_poll : PollResult :=
  mkPollResult 19000000 1 (Some 30000000000%N).

(** [n] rounds, one every ten time units from [t], each followed by a tick. *)
Fixpoint rounds_with_ticks (n : nat) (t : Z) : list Event :=
  match n with
  | O => []
  | S k => EvTimer (sample_io t) :: EvTick (99 # 100) :: rounds_with_ticks k (t + 10)
  end.

(** A first session, boosted twice, that takes the gauge to 100 and is then
    stopped. *)
Definition first_session : list Event :=
  ([EvNode (Fulfilled mainnet_poll) 42; EvSetThreads 2;
    EvToggleScan 0 (sample_io 0); EvLuckPulse]
   ++ rounds_with_ticks 12 10
   ++ [EvLuckTimeout; EvLuckPulse]
   ++ rounds_with_ticks 11 130
   ++ [EvToggleScan 240 (sample_io 240)])%list.

(** A second session started at 250: its first wallet is a forced hit whose
    balance lookup is in flight. *)
Definition second_session : list Event :=
  (first_session ++ [EvToggleScan 250 (sample_io 250)])%list.

(** ** More of the component: links, watch-list balances, reveal flags,
       statistics and the read-outs of the markup *)

(** src/App.tsx, lines 34-41. *)
Record Network : Type := mkNetwork {
  net_name : string;
  net_rpc : string;
  net_chainId : Z
}.

Definition NETWORKS : list Network :=
  [ mkNetwork "Ethereum Mainnet" "https://eth.llamarpc.com" 1;
    mkNetwork "Sepolia Testnet" "https://rpc.sepolia.org" 11155111;
    mkNetwork "Polygon" "https://polygon-rpc.com" 137;
    mkNetwork "BSC" "https://bsc-dataseed.binance.org/" 56;
    mkNetwork "Base" "https://mainnet.base.org" 8453;
    mkNetwork "Arbitrum One" "https://arb1.arbitrum.io/rpc" 42161 ].

(** A JavaScript object used as a map from strings: the keys in insertion
    order.  [obj[k]] is [record_get], [{...obj, [k]: v}] is [record_set]. *)
Definition JSRecord (A : Type) : Type := list (string * A).

Fixpoint record_get {A : Type} (k : string) (r : JSRecord A) : option A :=
  match r with
  | [] => None
  | (k', v) :: t => if String.eqb k' k then Some v else record_get k t
  end.

Fixpoint record_set {A : Type} (k : string) (v : A) (r : JSRecord A) : JSRecord A :=
  match r with
  | [] => [(k, v)]
  | (k', v') :: t =>
      if String.eqb k' k then (k', v) :: t else (k', v') :: record_set k v t
  end.

(** *** Block explorer links (lines 76-83) *)

(** Lines 78-80, the [chains] table. *)
Definition chains : list (Z * string) :=
  [ (1%Z, "etherscan.io"); (11155111%Z, "sepolia.etherscan.io");
    (137%Z, "polygonscan.com"); (56%Z, "bscscan.com");
    (8453%Z, "basescan.org"); (42161%Z, "arbiscan.io") ].

Fixpoint chains_get (cid : Z) (table : list (Z * string)) : option string :=
  match table with
  | [] => None
  | (c, d) :: t => if Z.eqb c cid then Some d else chains_get cid t
  end.

(** Line 81: [chains[nodeStatus.chainId] || "blockscan.com"]. *)
Definition explorer_domain (cid : Z) : string :=
  match chains_get cid chains with
  | Some EmptyString | None => "blockscan.com"
  | Some d => d
  end.

(** Lines 76-83; [null] when the chain id is [null] or 0. *)
Definition getExplorerUrl (ns : NodeStatus) (addr : string) : option string :=
  match chainId ns with
  | None | Some 0%Z => None
  | Some cid => Some ("https://" ++ explorer_domain cid ++ "/address/" ++ addr)
  end.

(** *** Watch-list balances (lines 86-96) *)

Definition is_fulfilled {A : Type} (s : Settled A) : bool :=
  match s with
  | Fulfilled _ => true
  | Rejected => false
  end.

(** Lines 90-93: the callbacks write into the fresh object [balances] as
    their lookups settle; [settled] lists the targets in that order. *)
Definition collect_balances (outcome : WatchTarget -> Settled N)
    (settled : list WatchTarget) : JSRecord string :=
  fold_left
    (fun balances target =>
       match outcome target with
       | Fulfilled bal => record_set (target_address target) (formatEther bal) balances
       | Rejected => balances
       end)
    settled [].

(** Lines 86-96.  Without a provider nothing is done; [Promise.all] rejects
    as soon as one lookup does, and the [catch] then leaves the state as it
    was; otherwise the state is replaced by the fresh object. *)
Definition syncHvtBalances (provider : option string)
    (hvtBalances : JSRecord string) (outcome : WatchTarget -> Settled N)
    (settled : list WatchTarget) : JSRecord string :=
  match provider with
  | None => hvtBalances
  | Some _ =>
      if forallb (fun target => is_fulfilled (outcome target)) RICH_TARGETS
      then collect_balances outcome settled
      else hvtBalances
  end.

(** Line 302: [hvtBalances[target.address] || 'VERIFYING...']. *)
Definition sync_status (hvtBalances : JSRecord string) (target : WatchTarget) : string :=
  match record_get (target_address target) hvtBalances with
  | Some EmptyString | None => "VERIFYING..."
  | Some shown => shown
  end.

(** *** Reveal flags (lines 233-235, 394, 413) *)

(** [!!revealMap[id]]. *)
Definition isRevealed (revealMap : JSRecord bool) (wid : string) : bool :=
  match record_get wid revealMap with
  | Some b => b
  | None => false
  end.

(** [setRevealMap(prev => ({ ...prev, [id]: !prev[id] }))]. *)
Definition toggleReveal (wid : string) (revealMap : JSRecord bool) : JSRecord bool :=
  record_set wid (negb (isRevealed revealMap wid)) revealMap.

(** *** Attempt statistics (lines 128-135, 220) *)

Record ScanStats : Type := mkScanStats {
  stat_attempts : Z;
  stat_startTime : Z;
  stat_wps : Z
}.

(** The statistics state with the local [lastAttempts] of the running effect
    and the values of its dependencies [luckActive] and [isScanning] at the
    render that started it. *)
Record StatsEffect : Type := mkStatsEffect {
  scanStats : ScanStats;
  lastAttempts : Z;
  dep_luckActive : bool;
  dep_isScanning : bool
}.

Definition initial_stats : StatsEffect :=
  mkStatsEffect (mkScanStats 0 0 0) 0 false false.

(** Lines 131-134, one run of the interval callback: [current] is
    [attemptsRef.current]. *)
Definition sample_stats (current : Z) (se : StatsEffect) : StatsEffect :=
  mkStatsEffect
    (mkScanStats current (stat_startTime (scanStats se)) (current - lastAttempts se))
    current (dep_luckActive se) (dep_isScanning se).

(** Line 220: [setScanStats(prev => ({ ...prev, startTime: Date.now() }))]. *)
Definition stamp_start (now : Z) (se : StatsEffect) : StatsEffect :=
  mkStatsEffect
    (mkScanStats (stat_attempts (scanStats se)) now (stat_wps (scanStats se)))
    (lastAttempts se) (dep_luckActive se) (dep_isScanning se).

(** Lines 128-129 and 145-146: when [luckActive] or [isScanning] differs from
    the render before, the effect is torn down and started again, with
    [lastAttempts] back at 0. *)
Definition restart_effect (st : AppState) (se : StatsEffect) : StatsEffect :=
  if Bool.eqb (luckActive st) (dep_luckActive se)
     && Bool.eqb (isScanning st) (dep_isScanning se)
  then se
  else mkStatsEffect (scanStats se) 0 (luckActive st) (isScanning st).

(** *** Read-outs of the markup *)

(** Line 260: [{quantumCalibration.toFixed(1)}], the figure before the
    percent sign. *)
Definition gauge_text (calibration : Q) : string := toFixed calibration 1.

(** Line 265. *)
Definition gauge_caption (calibration : Q) : string :=
  if Qle_bool 100 calibration then "ALIGNMENT PEAK" else "STABILIZING PATH...".

(** Line 406: the placeholder of the result area is shown when both lists
    are empty. *)
Definition standby_shown (st : AppState) : bool :=
  Nat.eqb (List.length (wallets st)) 0 && Nat.eqb (List.length (discovered st)) 0.

(** Line 423: [showCollisionAlert && lastDiscovery && (...)]; the modal shows
    [lastDiscovery.balance] and [lastDiscovery.address]. *)
Definition alert_modal (st : AppState) : option (string * string) :=
  if showCollisionAlert st
  then match lastDiscovery st with
       | Some e => Some (balance e, address e)
       | None => None
       end
  else None.

(** How many times [c] occurs in [s]. *)
Fixpoint count_char (c : ascii) (s : string) : nat :=
  match s with
  | EmptyString => 0
  | String d r => (if Ascii.eqb d c then 1 else 0) + count_char c r
  end.

(** Line 468: [wallet.mnemonic.split(' ')]. *)
Fixpoint split_on (sep : ascii) (s : string) : list string :=
  match s with
  | EmptyString => [EmptyString]
  | String c r =>
      if Ascii.eqb c sep then EmptyString :: split_on sep r
      else match split_on sep r with
           | w :: ws => String c w :: ws
           | [] => [String c EmptyString]
           end
  end.

(** [words.join(sep)]. *)
Fixpoint join_with (sep : string) (ws : list string) : string :=
  match ws with
  | [] => EmptyString
  | [w] => w
  | w :: rest => w ++ sep ++ join_with sep rest
  end.

(** Line 519: [(idx + 1).toString().padStart(2, '0')]. *)
Definition word_label (idx : nat) : string :=
  pad_left 2 (string_of_N (N.of_nat (idx + 1))).

(** *** The statistics along a run *)

(** What a task does to the statistics: the interval callback samples the
    counter as it is when the task starts; the task that starts a session
    stamps the start time; the render that follows restarts the effect when a
    dependency changed. *)
Definition stats_task (before after : AppState) (ev : Event) (se : StatsEffect)
    : StatsEffect :=
  let se1 :=
    match ev with
    | EvTick _ => sample_stats (Z.of_nat (attemptsRef before)) se
    | EvToggleScan now _ => if isScanning before then se else stamp_start now se
    | _ => se
    end in
  restart_effect after se1.

Fixpoint stats_run (JSON_parse : string -> option SecurityReport)
    (rt : Runtime) (evs : list Event) (se : StatsEffect) : StatsEffect :=
  match evs with
  | [] => se
  | ev :: rest =>
      let rt' := step JSON_parse rt ev in
      stats_run JSON_parse rt' rest (stats_task (app rt) (app rt') ev se)
  end.

(** What is assumed of the inputs of a task: [V] of the random number of a
    tick, [W] of what each wallet of a batch is given. *)
Definition event_ok (V : Q -> Prop) (W : WalletIO -> Prop) (ev : Event) : Prop :=
  match ev with
  | EvTick random => V random
  | EvToggleScan _ gen | EvTimer gen => forall i, W (gen i)
  | _ => True
  end.

(** [Math.random()] is not negative. *)
Definition random_ok (io : WalletIO) : Prop := 0 <= io_random io.

(** *** More invariants of a run *)

(** The ordinary list holds the last 15 of the records that are not
    discoveries; the alert shows the newest discovery. *)
Definition ledger_ok (st : AppState) : Prop :=
  (List.length (discovered st) <= attemptsRef st)%nat /\
  List.length (wallets st)
  = Nat.min 15 (attemptsRef st - List.length (discovered st)) /\
  lastDiscovery st = hd_error (discovered st) /\
  (showCollisionAlert st = true -> discovered st <> []).

(** Nothing is taken from the discoveries list and the counter never goes
    back. *)
Definition grows (a b : Runtime) : Prop :=
  (exists newer, discovered (app b) = (newer ++ discovered (app a))%list) /\
  (attemptsRef (app a) <= attemptsRef (app b))%nat.

(** A suspended call waits for the balance of a watch target or of a forced
    hit, whose synthetic balance is positive. *)
Definition worth_a_lookup (loc : Locals) : Prop :=
  l_isTargetMatch loc = true \/
  (l_forcedHit loc = true /\ gt0 (parseFloat (l_balance loc)) = true).

Definition pipeline_ok (rt : Runtime) : Prop :=
  (forall e, In e (wallets (app rt)) -> balance e = "0.00") /\
  (forall s, In s (suspended rt) -> worth_a_lookup (snd s)) /\
  (discoveryLockRef (app rt) = true ->
   exists s, In s (suspended rt) /\ l_forcedHit (snd s) = true).

(** The boost is on only while one of its timeouts is pending. *)
Definition luck_ok (rt : Runtime) : Prop :=
  luckActive (app rt) = true -> (0 < luck_timeouts rt)%nat.

(** What is known of the node goes together. *)
Definition node_ok (st : AppState) : Prop :=
  let ns := nodeStatus st in
  (connected ns = true -> latency ns <> None) /\
  (connected ns = false -> latency ns = None) /\
  match providerRef st with
  | None => connected ns = false /\ blockNumber ns = None /\ chainId ns = None
  | Some url => rpcUrl ns = url /\ blockNumber ns <> None /\ chainId ns <> None
  end.

(** The statistics never run ahead of the counter. *)
Definition stats_ok (st : AppState) (se : StatsEffect) : Prop :=
  (0 <= lastAttempts se <= Z.of_nat (attemptsRef st))%Z /\
  (0 <= stat_wps (scanStats se) <= stat_attempts (scanStats se))%Z /\
  (stat_attempts (scanStats se) <= Z.of_nat (attemptsRef st))%Z /\
  dep_luckActive se = luckActive st /\ dep_isScanning se = isScanning st.

(** * Properties *)

(** ** The primitives on sample inputs *)

Example toFixed_samples :
  toFixed (12 # 10) 4 = "1.2000" /\ toFixed (1249999 # 100000) 4 = "12.5000" /\
  toFixed (1 # 100000) 4 = "0.0000" /\ toFixed (- (5 # 2)) 0 = "-3" /\
  toFixed (123456 # 100) 2 = "1234.56".
Proof. repeat split; vm_compute; reflexivity. Qed.

Example formatEther_samples :
  formatEther 0 = "0.0" /\ formatEther 1000000000000000000 = "1.0" /\
  formatEther 1500000000000000000 = "1.5" /\ formatEther 1 = "0.000000000000000001" /\
  formatUnits 30000000000 9 = "30.0".
Proof. repeat split; vm_compute; reflexivity. Qed.

Example parseFloat_samples :
  parseFloat "0.00" = Num (0 # 100) /\ parseFloat "1.2000" = Num (12000 # 10000) /\
  parseFloat "  -3.5e2xyz" = Num (- inject_Z 350) /\ parseFloat "abc" = NaN /\
  parseFloat ".5" = Num (5 # 10) /\ parseFloat "-Infinity" = Infinity true /\
  parseFloat "7." = Num (inject_Z 7) /\ parseFloat "." = NaN.
Proof. repeat split; vm_compute; reflexivity. Qed.

Example toLowerCase_sample :
  toLowerCase "0xAB5801a7D12705464d12F4019153033620769D11"
  = "0xab5801a7d12705464d12f4019153033620769d11".
Proof. reflexivity. Qed.

Example isTargetMatch_samples :
  isTargetMatch (mkHDNodeWallet "0xAB5801a7D12705464d12F4019153033620769D11" "" None)
  = true /\
  isTargetMatch sample_wallet = false.
Proof. split; vm_compute; reflexivity. Qed.

(** ** Digits and decimal strings *)

Ltac ascii_cases c :=
  destruct c as [[] [] [] [] [] [] [] []]; try discriminate; try reflexivity.

Lemma is_digit_split_sign c r :
  is_digit c = true -> split_sign (String c r) = (false, String c r).
Proof. intros H. ascii_cases c. Qed.

Lemma is_digit_split_fraction c r :
  is_digit c = true -> split_fraction (String c r) = (EmptyString, String c r).
Proof. intros H. ascii_cases c. Qed.

Lemma is_digit_not_space c : is_digit c = true -> is_space c = false.
Proof. intros H. ascii_cases c. Qed.

Lemma is_digit_not_I c : is_digit c = true -> Ascii.eqb c "I" = false.
Proof. intros H. ascii_cases c. Qed.

Lemma digit_val_zero c :
  is_digit c = true -> (digit_val c = 0%N <-> c = "0"%char).
Proof.
  intros H. ascii_cases c; vm_compute; split; intros E; try discriminate E; reflexivity.
Qed.

Lemma str_length_app a b :
  String.length (a ++ b) = (String.length a + String.length b)%nat.
Proof. induction a as [|c a IH]; simpl; [reflexivity | now rewrite IH]. Qed.

Lemma str_take_drop k s : str_take k s ++ str_drop k s = s.
Proof.
  revert s. induction k as [|k IH]; intros [|c s]; simpl; try reflexivity.
  now rewrite IH.
Qed.

Lemma str_drop_length k s :
  String.length (str_drop k s) = (String.length s - k)%nat.
Proof.
  revert s. induction k as [|k IH]; intros [|c s]; simpl; auto.
Qed.

Lemma str_take_length k s :
  String.length (str_take k s) = Nat.min k (String.length s).
Proof.
  revert s. induction k as [|k IH]; intros [|c s]; simpl; auto.
Qed.

Lemma all_digits_app a b :
  all_digits (a ++ b) = all_digits a && all_digits b.
Proof.
  induction a as [|c a IH]; simpl; [reflexivity|].
  now rewrite IH, andb_assoc.
Qed.

Lemma all_digits_zeros k : all_digits (zeros k) = true.
Proof. induction k; simpl; auto. Qed.

Lemma zeros_length k : String.length (zeros k) = k.
Proof. induction k; simpl; auto. Qed.

Lemma all_digits_uint u : all_digits (NilEmpty.string_of_uint u) = true.
Proof. induction u; simpl; auto. Qed.

Lemma all_digits_string_of_N n : all_digits (string_of_N n) = true.
Proof. apply all_digits_uint. Qed.

Lemma to_uint_not_nil n : N.to_uint n <> Nil.
Proof.
  rewrite <- (DecimalN.Unsigned.of_to n) at 1.
  rewrite DecimalN.Unsigned.to_of. apply unorm_nonnil.
Qed.

Lemma string_of_N_not_empty n : string_of_N n <> "".
Proof.
  unfold string_of_N. pose proof (to_uint_not_nil n) as H.
  destruct (N.to_uint n); simpl; congruence.
Qed.

Lemma all_digits_pad k s : all_digits s = true -> all_digits (pad_left k s) = true.
Proof.
  intros H. unfold pad_left. now rewrite all_digits_app, all_digits_zeros, H.
Qed.

Lemma pad_left_length k s : (k <= String.length (pad_left k s))%nat.
Proof. unfold pad_left. rewrite str_length_app, zeros_length. lia. Qed.

(** The digit prefix of [a ++ r] is [a] when [a] is made of digits and [r]
    does not start with one. *)
Lemma span_digits_app a r :
  all_digits a = true ->
  span_digits r = (EmptyString, r) ->
  span_digits (a ++ r) = (a, r).
Proof.
  intros Ha Hr. induction a as [|c a IH]; simpl in *; [assumption|].
  apply andb_true_iff in Ha as [Hc Ha].
  rewrite Hc, (IH Ha). reflexivity.
Qed.

Lemma span_digits_all a : all_digits a = true -> span_digits a = (a, EmptyString).
Proof.
  intros Ha. induction a as [|c a IH]; simpl in *; [reflexivity|].
  apply andb_true_iff in Ha as [Hc Ha].
  rewrite Hc, (IH Ha). reflexivity.
Qed.

Lemma digits_acc_app acc a b :
  digits_acc acc (a ++ b) = digits_acc (digits_acc acc a) b.
Proof. revert acc. induction a as [|c a IH]; intros acc; simpl; auto. Qed.

Lemma digits_acc_zeros k s acc :
  digits_acc acc (zeros k ++ s) = digits_acc (acc * 10 ^ N.of_nat k) s.
Proof.
  revert acc. induction k as [|k IH]; intros acc.
  - simpl. now rewrite N.mul_1_r.
  - cbn [zeros append digits_acc]. rewrite IH.
    replace (digit_val "0") with 0%N by reflexivity.
    rewrite N.add_0_r, Nat2N.inj_succ, N.pow_succ_r', N.mul_assoc. reflexivity.
Qed.

Lemma digits_acc_uint u acc :
  digits_acc acc (NilEmpty.string_of_uint u)
  = (Unsigned.of_lu (rev u) + acc * 10 ^ Unsigned.usize u)%N.
Proof.
  revert acc.
  induction u; intros acc;
    [ simpl; now rewrite N.mul_1_r | .. ];
    cbn [NilEmpty.string_of_uint digits_acc Unsigned.usize];
    unfold rev; cbn [revapp];
    rewrite Unsigned.of_lu_revapp, IHu, N.pow_succ_r';
    match goal with
    | |- context [digit_val ?c] =>
        let v := eval vm_compute in (digit_val c) in
        change (digit_val c) with v
    end;
    cbn [Unsigned.of_lu]; unfold rev; ring.
Qed.

Lemma digits_value_string_of_N n : digits_value (string_of_N n) = n.
Proof.
  unfold digits_value, string_of_N. rewrite digits_acc_uint.
  rewrite <- Unsigned.of_uint_alt. change (Pos.of_uint (N.to_uint n)) with (N.of_uint (N.to_uint n)).
  rewrite DecimalN.Unsigned.of_to. lia.
Qed.

Lemma digits_value_pad k n : digits_value (pad_left k (string_of_N n)) = n.
Proof.
  unfold digits_value, pad_left. rewrite digits_acc_zeros. simpl.
  apply digits_value_string_of_N.
Qed.

Lemma digits_acc_eq0 s acc :
  all_digits s = true ->
  (digits_acc acc s = 0%N <-> acc = 0%N /\ all_zero s = true).
Proof.
  revert acc. induction s as [|c s IH]; intros acc H; simpl in *.
  - tauto.
  - apply andb_true_iff in H as [Hc Hs].
    rewrite (IH _ Hs), andb_true_iff, Ascii.eqb_eq.
    pose proof (digit_val_zero c Hc). split.
    + intros [E Z]. assert (acc = 0%N /\ digit_val c = 0%N) as [-> D] by lia. tauto.
    + intros [-> [-> Z]]. split; [reflexivity | assumption].
Qed.

Lemma all_zero_app a b : all_zero (a ++ b) = all_zero a && all_zero b.
Proof.
  induction a as [|c a IH]; simpl; [reflexivity|]. now rewrite IH, andb_assoc.
Qed.

Lemma all_zero_zeros k : all_zero (zeros k) = true.
Proof. induction k; simpl; auto. Qed.

Lemma all_zero_string_of_N n : all_zero (string_of_N n) = true <-> n = 0%N.
Proof.
  pose proof (digits_acc_eq0 (string_of_N n) 0 (all_digits_string_of_N n)) as H.
  fold (digits_value (string_of_N n)) in H.
  rewrite digits_value_string_of_N in H. tauto.
Qed.

(** ** What [parseFloat] reads back from a printed decimal *)

Lemma parseFloat_decimal a b :
  a <> "" -> all_digits a = true -> all_digits b = true ->
  parseFloat (a ++ "." ++ b)
  = Num (scale10 (digits_value (a ++ b)) (- Z.of_nat (String.length b))).
Proof.
  intros Ha Da Db. destruct a as [|c a]; [congruence|].
  simpl in Da. apply andb_true_iff in Da as [Dc Da].
  unfold parseFloat. cbn [append trimStart].
  rewrite (is_digit_not_space c Dc), (is_digit_split_sign c _ Dc).
  assert (starts_with "Infinity" (String c (a ++ String "." b)) = false) as ->.
  { unfold starts_with. cbn [String.length str_take String.eqb].
    now rewrite (is_digit_not_I c Dc). }
  unfold parse_unsigned.
  change (String c (a ++ String "." b)) with (String c a ++ String "." b).
  rewrite (span_digits_app (String c a) (String "." b)).
  - cbn [split_fraction]. rewrite (span_digits_all b Db).
    cbn [parse_exponent]. reflexivity.
  - simpl. now rewrite Dc, Da.
  - reflexivity.
Qed.

Lemma gt0_scale10 m e : gt0 (Num (scale10 m e)) = negb (m =? 0)%N.
Proof.
  unfold gt0. f_equal.
  destruct (N.eqb_spec m 0) as [->|Hm].
  - destruct e; reflexivity.
  - apply not_true_is_false. intros H. apply Qle_bool_iff in H.
    assert (0 < Z.of_N m)%Z as Hp by lia.
    destruct e as [|p|p]; unfold scale10, Qle, inject_Z in H; simpl in H.
    + lia.
    + assert (0 < Z.pow_pos 10 p)%Z.
      { change (Z.pow_pos 10 p) with (10 ^ Zpos p)%Z. apply Z.pow_pos_nonneg; lia. }
      nia.
    + lia.
Qed.

(** A printed decimal parses to a positive number exactly when one of its
    digits is not ["0"]. *)
Lemma gt0_parseFloat_decimal a b :
  a <> "" -> all_digits a = true -> all_digits b = true ->
  gt0 (parseFloat (a ++ "." ++ b)) = negb (all_zero a && all_zero b).
Proof.
  intros Ha Da Db. rewrite (parseFloat_decimal a b Ha Da Db), gt0_scale10.
  f_equal. rewrite <- all_zero_app.
  assert (all_digits (a ++ b) = true) as D by now rewrite all_digits_app, Da, Db.
  pose proof (digits_acc_eq0 (a ++ b) 0 D) as H. fold (digits_value (a ++ b)) in H.
  destruct (N.eqb_spec (digits_value (a ++ b)) 0) as [E|E];
    destruct (all_zero (a ++ b)); try reflexivity.
  - apply H in E. destruct E; discriminate.
  - exfalso. apply E, H. split; reflexivity.
Qed.

Lemma is_decimal_string_decimal a b :
  a <> "" -> b <> "" -> all_digits a = true -> all_digits b = true ->
  is_decimal_string (a ++ "." ++ b) = true.
Proof.
  intros Ha Hb Da Db. unfold is_decimal_string.
  rewrite (span_digits_app a ("." ++ b) Da) by reflexivity.
  cbn [append]. rewrite Db, andb_true_r.
  destruct a; [congruence|]. destruct b; [congruence|]. reflexivity.
Qed.

(** ** [toFixed] *)

Lemma toFixed_shape x f :
  0 <= x -> f <> O ->
  exists a b,
    toFixed x f = a ++ "." ++ b /\ a <> "" /\
    all_digits a = true /\ all_digits b = true /\
    String.length b = f /\ digits_value (a ++ b) = toFixed_int x f.
Proof.
  intros Hx Hf. unfold toFixed.
  assert (Qle_bool 0 x = true) as -> by now apply Qle_bool_iff.
  cbn [negb].
  destruct f as [|f]; [congruence|].
  set (m := pad_left (S (S f)) (string_of_N (toFixed_int x (S f)))).
  set (k := String.length m).
  assert (S (S f) <= k)%nat as Hk by apply pad_left_length.
  assert (all_digits m = true) as Dm by apply all_digits_pad, all_digits_string_of_N.
  exists (str_take (k - S f) m), (str_drop (k - S f) m).
  pose proof (str_take_drop (k - S f) m) as E.
  rewrite <- E, all_digits_app in Dm. apply andb_true_iff in Dm as [D1 D2].
  repeat split; try assumption.
  - intros Z. apply (f_equal String.length) in Z.
    rewrite str_take_length in Z. simpl in Z. fold k in Z. lia.
  - rewrite str_drop_length. fold k. lia.
  - rewrite E. apply digits_value_pad.
Qed.

Lemma has_decimals_decimal a b f :
  a <> "" -> all_digits a = true -> all_digits b = true -> String.length b = f ->
  has_decimals f (a ++ "." ++ b) = true.
Proof.
  intros Ha Da Db Hl. unfold has_decimals.
  rewrite (span_digits_app a ("." ++ b) Da) by reflexivity.
  cbn [append]. rewrite Db, Hl, Nat.eqb_refl.
  destruct a; [congruence|]. reflexivity.
Qed.

(** ** The synthetic balance of line 157 *)

Lemma synthetic_int_lower random :
  0 <= random -> (12000 <= toFixed_int (synthetic_value random) 4)%N.
Proof.
  intros H. unfold toFixed_int, synthetic_value.
  change (inject_Z (10 ^ Z.of_nat 4)) with (10000 # 1).
  assert (12000 <= Qfloor ((random * ((125 # 10) - (12 # 10)) + (12 # 10)) * (10000 # 1) + (1 # 2)))%Z.
  { rewrite <- (Qfloor_Z 12000). apply Qfloor_resp_le.
    change (inject_Z 12000) with (12000 # 1). lra. }
  lia.
Qed.


Lemma synthetic_balance_shape random :
  0 <= random ->
  exists a b,
    synthetic_balance random = a ++ "." ++ b /\ a <> "" /\
    all_digits a = true /\ all_digits b = true /\ String.length b = 4%nat /\
    digits_value (a ++ b) = toFixed_int (synthetic_value random) 4.
Proof.
  intros H. apply toFixed_shape; [|discriminate].
  unfold synthetic_value. lra.
Qed.

Lemma synthetic_balance_parse random :
  0 <= random ->
  parseFloat (synthetic_balance random)
  = Num (Z.of_N (toFixed_int (synthetic_value random) 4) # 10000).
Proof.
  intros H. destruct (synthetic_balance_shape random H)
    as (a & b & -> & Ha & Da & Db & Hl & Hv).
  rewrite (parseFloat_decimal a b Ha Da Db), Hl, Hv. reflexivity.
Qed.

Lemma synthetic_balance_positive random :
  0 <= random -> gt0 (parseFloat (synthetic_balance random)) = true.
Proof.
  intros H. rewrite (synthetic_balance_parse random H).
  pose proof (synthetic_int_lower random H).
  unfold gt0. apply negb_true_iff, not_true_is_false. intros L.
  apply Qle_bool_iff in L. unfold Qle in L. simpl in L. lia.
Qed.

Lemma synthetic_balance_decimal random :
  0 <= random -> is_decimal_string (synthetic_balance random) = true.
Proof.
  intros H. destruct (synthetic_balance_shape random H)
    as (a & b & -> & Ha & Da & Db & Hl & _).
  apply is_decimal_string_decimal; try assumption.
  destruct b; [discriminate | congruence].
Qed.


(** ** [formatUnits] *)

Lemma all_digits_forallb s :
  all_digits s = forallb is_digit (list_ascii_of_string s).
Proof. induction s as [|c s IH]; simpl; [reflexivity | now rewrite IH]. Qed.

Lemma all_zero_forallb s :
  all_zero s = forallb (fun c => Ascii.eqb c "0") (list_ascii_of_string s).
Proof. induction s as [|c s IH]; simpl; [reflexivity | now rewrite IH]. Qed.

Lemma forallb_rev {A} (f : A -> bool) l : forallb f (List.rev l) = forallb f l.
Proof.
  induction l as [|x l IH]; simpl; [reflexivity|].
  rewrite forallb_app, IH. simpl. rewrite andb_true_r. apply andb_comm.
Qed.

Lemma strip_rev_cons c d t :
  strip_trailing_zeros_rev (c :: d :: t)
  = if Ascii.eqb c "0" then strip_trailing_zeros_rev (d :: t) else c :: d :: t.
Proof. reflexivity. Qed.

Lemma strip_rev_forallb (f : ascii -> bool) r :
  forallb f r = true -> forallb f (strip_trailing_zeros_rev r) = true.
Proof.
  induction r as [|c r IH]; intros H; [assumption|].
  destruct r as [|d t]; [assumption|].
  rewrite strip_rev_cons. destruct (Ascii.eqb c "0"); [|assumption].
  apply IH. cbn [forallb] in H. apply andb_true_iff in H. tauto.
Qed.

Lemma strip_rev_all_zero r :
  forallb (fun c => Ascii.eqb c "0") (strip_trailing_zeros_rev r)
  = forallb (fun c => Ascii.eqb c "0") r.
Proof.
  induction r as [|c r IH]; [reflexivity|].
  destruct r as [|d t]; [reflexivity|].
  rewrite strip_rev_cons. destruct (Ascii.eqb c "0") eqn:E; [|reflexivity].
  rewrite IH. cbn [forallb]. now rewrite E.
Qed.

Lemma strip_rev_not_nil r : r <> [] -> strip_trailing_zeros_rev r <> [].
Proof.
  induction r as [|c r IH]; intros H; [assumption|].
  destruct r as [|d t]; [assumption|].
  rewrite strip_rev_cons. destruct (Ascii.eqb c "0"); [|assumption].
  apply IH. discriminate.
Qed.

Lemma all_digits_strip s :
  all_digits s = true -> all_digits (strip_trailing_zeros s) = true.
Proof.
  intros H. unfold strip_trailing_zeros.
  rewrite all_digits_forallb, list_ascii_of_string_of_list_ascii, forallb_rev.
  apply strip_rev_forallb. now rewrite forallb_rev, <- all_digits_forallb.
Qed.

Lemma all_zero_strip s : all_zero (strip_trailing_zeros s) = all_zero s.
Proof.
  unfold strip_trailing_zeros.
  rewrite !all_zero_forallb, list_ascii_of_string_of_list_ascii, forallb_rev.
  now rewrite strip_rev_all_zero, forallb_rev.
Qed.

Lemma strip_not_empty s : s <> "" -> strip_trailing_zeros s <> "".
Proof.
  intros H E. unfold strip_trailing_zeros in E.
  apply (f_equal list_ascii_of_string) in E.
  rewrite list_ascii_of_string_of_list_ascii in E. simpl in E.
  apply (f_equal (@List.rev ascii)) in E. rewrite rev_involutive in E. simpl in E.
  revert E. apply strip_rev_not_nil. intros R.
  apply (f_equal (@List.rev ascii)) in R. rewrite rev_involutive in R. simpl in R.
  destruct s; [congruence | discriminate].
Qed.

Lemma all_zero_string_of_N_eqb n : all_zero (string_of_N n) = (n =? 0)%N.
Proof.
  pose proof (all_zero_string_of_N n) as [H1 H2].
  destruct (N.eqb_spec n 0) as [E|E]; [now apply H2|].
  apply not_true_is_false. intros A. now apply E, H1.
Qed.

Lemma all_zero_pad k n : all_zero (pad_left k (string_of_N n)) = (n =? 0)%N.
Proof.
  unfold pad_left. rewrite all_zero_app, all_zero_zeros. cbn [andb].
  apply all_zero_string_of_N_eqb.
Qed.

Lemma formatUnits_shape value d :
  d <> O ->
  exists a b,
    formatUnits value d = a ++ "." ++ b /\ a <> "" /\ b <> "" /\
    all_digits a = true /\ all_digits b = true /\
    all_zero a && all_zero b = (value =? 0)%N.
Proof.
  intros Hd. unfold formatUnits. destruct d as [|d]; [congruence|].
  set (unit := (10 ^ N.of_nat (S d))%N).
  exists (string_of_N (value / unit)),
         (strip_trailing_zeros (pad_left (S d) (string_of_N (value mod unit)))).
  assert (unit <> 0)%N as Hu by (apply N.pow_nonzero; discriminate).
  repeat split.
  - apply string_of_N_not_empty.
  - apply strip_not_empty. intros E. apply (f_equal String.length) in E.
    pose proof (pad_left_length (S d) (string_of_N (value mod unit))). simpl in E. lia.
  - apply all_digits_string_of_N.
  - apply all_digits_strip, all_digits_pad, all_digits_string_of_N.
  - rewrite all_zero_strip, all_zero_pad, all_zero_string_of_N_eqb.
    pose proof (N.div_mod value unit Hu) as E.
    destruct (N.eqb_spec (value / unit) 0) as [D|D];
      destruct (N.eqb_spec (value mod unit) 0) as [M|M];
      destruct (N.eqb_spec value 0) as [V|V]; try reflexivity; exfalso.
    + nia.
    + subst value. rewrite N.Div0.mod_0_l in M. congruence.
    + subst value. rewrite N.Div0.div_0_l in D. congruence.
    + subst value. rewrite N.Div0.div_0_l in D. congruence.
Qed.

(** The formatted amount parses to a positive number exactly when the amount
    is not zero. *)
Lemma gt0_formatEther wei : gt0 (parseFloat (formatEther wei)) = negb (wei =? 0)%N.
Proof.
  destruct (formatUnits_shape wei 18) as (a & b & E & Ha & Hb & Da & Db & Z);
    [discriminate|].
  unfold formatEther. rewrite E, (gt0_parseFloat_decimal a b Ha Da Db), Z. reflexivity.
Qed.

Lemma is_decimal_formatEther wei : is_decimal_string (formatEther wei) = true.
Proof.
  destruct (formatUnits_shape wei 18) as (a & b & E & Ha & Hb & Da & Db & _);
    [discriminate|].
  unfold formatEther. rewrite E. now apply is_decimal_string_decimal.
Qed.

(** ** The wallet processor *)

Lemma isTargetMatch_spec wallet :
  isTargetMatch wallet = true <-> is_watch_target (wallet_address wallet).
Proof.
  unfold isTargetMatch, is_watch_target. rewrite existsb_exists.
  split; intros (t & Ht & E); exists t; split; try assumption;
    now apply String.eqb_eq.
Qed.

Lemma list_neq_cons {A} (x : A) l : l <> x :: l.
Proof.
  intros E. apply (f_equal (@List.length A)) in E. simpl in E. lia.
Qed.

Lemma begin_locals scope st wallet random :
  let '(st1, loc, _) := processWallet_begin scope st wallet random in
  l_wallet loc = wallet /\ l_isTargetMatch loc = isTargetMatch wallet /\
  wallets st1 = wallets st /\ discovered st1 = discovered st /\
  quantumCalibration st1 = quantumCalibration st /\
  attemptsRef st1 = attemptsRef st.
Proof.
  unfold processWallet_begin.
  destruct (Qle_bool 100 (scope_quantumCalibration scope) && negb (discoveryLockRef st));
    simpl; repeat split.
Qed.

Lemma end_entry scope st loc lookup uuid now :
  snd (processWallet_end scope st loc lookup uuid now)
  = {| id := uuid; address := wallet_address (l_wallet loc);
       privateKey := wallet_privateKey (l_wallet loc);
       mnemonic := mnemonic_phrase (l_wallet loc);
       balance := settle_balance (l_balance loc) lookup; timestamp := now;
       network := network_label (scope_chainId scope) |}.
Proof. reflexivity. Qed.

(** The two branches of lines 178-186. *)
Lemma end_routes scope st loc lookup uuid now :
  let '(st', e) := processWallet_end scope st loc lookup uuid now in
  (gt0 (parseFloat (balance e)) || l_isTargetMatch loc = true ->
     in_discoveries st st' e /\ quantumCalibration st' = 0 /\
     discoveryLockRef st' = false) /\
  (gt0 (parseFloat (balance e)) || l_isTargetMatch loc = false ->
     in_ordinary st st' e /\ quantumCalibration st' = quantumCalibration st /\
     discoveryLockRef st' = discoveryLockRef st) /\
  attemptsRef st' = S (attemptsRef st).
Proof.
  unfold processWallet_end. cbn [balance].
  destruct (gt0 (parseFloat (settle_balance (l_balance loc) lookup)) || l_isTargetMatch loc);
    unfold in_discoveries, in_ordinary; simpl; repeat split; try discriminate; lia.
Qed.

(** C1. A processed wallet goes to the discoveries list exactly when its
    balance parses to a value strictly greater than 0 or its address equals a
    watch-target address, letter case aside; otherwise it goes to the
    ordinary list.  The state [st2] is the state at the moment the call
    resumes, whatever happened in between. *)
Theorem routing_rule scope st wallet random st2 lookup uuid now :
  let '(_, loc, _) := processWallet_begin scope st wallet random in
  let '(st3, e) := processWallet_end scope st2 loc lookup uuid now in
  (in_discoveries st2 st3 e <->
     positive_balance e \/ is_watch_target (address e)) /\
  (in_ordinary st2 st3 e <->
     ~ (positive_balance e \/ is_watch_target (address e))).
Proof.
  pose proof (begin_locals scope st wallet random) as B.
  destruct (processWallet_begin scope st wallet random) as [[st1 loc] lk].
  destruct B as (Hw & Ht & _).
  pose proof (end_routes scope st2 loc lookup uuid now) as R.
  pose proof (end_entry scope st2 loc lookup uuid now) as E.
  destruct (processWallet_end scope st2 loc lookup uuid now) as [st3 e].
  simpl in E. destruct R as (Rd & Ro & _).
  assert (address e = wallet_address wallet) as Ha by (rewrite E, Hw; reflexivity).
  unfold positive_balance. rewrite Ha, <- isTargetMatch_spec, <- Ht, <- orb_true_iff.
  destruct (gt0 (parseFloat (balance e)) || l_isTargetMatch loc).
  - destruct (Rd eq_refl) as ((Hd & Hws) & _). split; split; intros H.
    + reflexivity.
    + split; assumption.
    + destruct H as [_ H]. rewrite Hd in H. exfalso. symmetry in H.
      revert H. apply list_neq_cons.
    + exfalso. apply H. reflexivity.
  - destruct (Ro eq_refl) as ((Hws & Hd) & _). split; split; intros H.
    + destruct H as [H _]. rewrite Hd in H. exfalso. revert H. apply list_neq_cons.
    + discriminate.
    + discriminate.
    + split; assumption.
Qed.

Lemma settle_balance_spec bal lookup :
  settle_balance bal lookup
  = match lookup with
    | Some (Fulfilled wei) => if (wei =? 0)%N then bal else formatEther wei
    | _ => bal
    end.
Proof.
  destruct lookup as [[wei|]|]; try reflexivity.
  unfold settle_balance. rewrite gt0_formatEther.
  destruct (wei =? 0)%N; reflexivity.
Qed.

Lemma settle_balance_positive bal lookup :
  gt0 (parseFloat bal) = true ->
  gt0 (parseFloat (settle_balance bal lookup)) = true.
Proof.
  intros H. destruct lookup as [[wei|]|]; try assumption.
  unfold settle_balance. destruct (gt0 (parseFloat (formatEther wei))) eqn:E; assumption.
Qed.

Lemma begin_forced scope st wallet random :
  100 <= scope_quantumCalibration scope -> discoveryLockRef st = false ->
  processWallet_begin scope st wallet random
  = (set_discoveryLockRef true st,
     mkLocals wallet (synthetic_balance random) true (isTargetMatch wallet),
     match providerRef st with Some _ => true | None => false end).
Proof.
  intros Hq Hl. unfold processWallet_begin.
  apply Qle_bool_iff in Hq. rewrite Hq, Hl. cbn [andb negb].
  cbn [providerRef set_discoveryLockRef]. rewrite orb_true_r. reflexivity.
Qed.


(** A forced hit always reaches the discoveries list: its synthetic balance
    is positive and only a positive amount can replace it. *)
Lemma forced_hit_recorded scope st2 wallet random target lookup uuid now :
  0 <= random ->
  let loc := mkLocals wallet (synthetic_balance random) true target in
  let '(st3, e) := processWallet_end scope st2 loc lookup uuid now in
  in_discoveries st2 st3 e /\ positive_balance e /\
  quantumCalibration st3 = 0 /\ discoveryLockRef st3 = false /\
  balance e = settle_balance (synthetic_balance random) lookup.
Proof.
  intros Hr loc.
  pose proof (end_routes scope st2 loc lookup uuid now) as R.
  pose proof (end_entry scope st2 loc lookup uuid now) as E.
  destruct (processWallet_end scope st2 loc lookup uuid now) as [st3 e].
  simpl in E. destruct R as (Rd & _ & _).
  assert (balance e = settle_balance (synthetic_balance random) lookup) as Hb
    by (rewrite E; reflexivity).
  assert (gt0 (parseFloat (balance e)) = true) as Hp.
  { rewrite Hb. apply settle_balance_positive, synthetic_balance_positive, Hr. }
  rewrite Hp in Rd. destruct (Rd eq_refl) as (Hd & Hq & Hl).
  repeat split; try assumption; apply Hd.
Qed.


Lemma forced_hit_kept scope st io :
  100 <= scope_quantumCalibration scope ->
  discoveryLockRef st = false ->
  0 <= io_random io ->
  io_lookup io = Fulfilled 0%N \/ io_lookup io = Rejected ->
  let '(st', e) := processWallet scope st io in
  in_discoveries st st' e /\ positive_balance e /\
  balance e = synthetic_balance (io_random io).
Proof.
  intros Hq Hl Hr Hz. unfold processWallet.
  rewrite (begin_forced scope st (io_wallet io) (io_random io) Hq Hl).
  set (lk := if match providerRef st with Some _ => true | None => false end
             then Some (io_lookup io) else None).
  pose proof (forced_hit_recorded scope (set_discoveryLockRef true st) (io_wallet io)
                (io_random io) (isTargetMatch (io_wallet io)) lk
                (io_uuid io) (io_now io) Hr) as F.
  cbv zeta in F.
  destruct (processWallet_end scope (set_discoveryLockRef true st) _ lk _ _) as [st' e].
  destruct F as (Hd & Hp & _ & _ & Hb).
  repeat split; try assumption; try apply Hd.
  rewrite Hb, settle_balance_spec. subst lk.
  destruct (providerRef st); [|reflexivity].
  destruct Hz as [-> | ->]; reflexivity.
Qed.

(** C3, as the code has it. When a forced hit is computed and the live lookup
    returns zero or fails, the synthetic balance is kept: the record has a
    positive balance and goes to the discoveries list. *)
Theorem forced_hit_survives_empty_lookup scope st io :
  100 <= scope_quantumCalibration scope ->
  discoveryLockRef st = false ->
  0 <= io_random io ->
  io_lookup io = Fulfilled 0%N \/ io_lookup io = Rejected ->
  let '(st', e) := processWallet scope st io in
  in_discoveries st st' e /\ positive_balance e /\
  balance e = synthetic_balance (io_random io).
Proof. apply forced_hit_kept. Qed.

(** C6. For a watch-list match or a forced hit (the only wallets for which a
    lookup is issued), when the live lookup fails or yields zero the balance of
    the record is the value computed before the lookup: the randomized
    synthetic value for a forced hit, the placeholder ["0.00"] otherwise.  The
    lookup replaces that value only when the amount is strictly positive. *)
Theorem lookup_fallback scope st io :
  let '(st1, loc, issued) :=
    processWallet_begin scope st (io_wallet io) (io_random io) in
  let '(_, e) := processWallet scope st io in
  l_balance loc = (if l_forcedHit loc then synthetic_balance (io_random io)
                   else "0.00") /\
  issued = match providerRef st with
           | Some _ => l_isTargetMatch loc || l_forcedHit loc
           | None => false
           end /\
  balance e = match io_lookup io with
              | Fulfilled wei =>
                  if issued && (0 <? wei)%N then formatEther wei
                  else l_balance loc
              | Rejected => l_balance loc
              end.
Proof.
  unfold processWallet.
  destruct (processWallet_begin scope st (io_wallet io) (io_random io))
    as [[st1 loc] lk] eqn:B.
  pose proof (end_entry scope st1 loc (if lk then Some (io_lookup io) else None)
                (io_uuid io) (io_now io)) as E.
  destruct (processWallet_end scope st1 loc _ _ _) as [st' e]. simpl in E.
  assert (balance e = settle_balance (l_balance loc)
                        (if lk then Some (io_lookup io) else None)) as Hb
    by (rewrite E; reflexivity).
  rewrite settle_balance_spec in Hb.
  unfold processWallet_begin in B.
  split; [|split].
  - destruct (Qle_bool 100 (scope_quantumCalibration scope) && negb (discoveryLockRef st));
      inversion B; reflexivity.
  - destruct (Qle_bool 100 (scope_quantumCalibration scope) && negb (discoveryLockRef st));
      inversion B; reflexivity.
  - rewrite Hb. destruct lk; destruct (io_lookup io) as [wei|]; try reflexivity.
    cbn [andb]. destruct (N.eqb_spec wei 0) as [->|Hw]; [reflexivity|].
    assert ((0 <? wei)%N = true) as -> by (apply N.ltb_lt; lia). reflexivity.
Qed.

Lemma balance_is_decimal scope st wallet random st2 lookup uuid now :
  0 <= random ->
  let '(_, loc, _) := processWallet_begin scope st wallet random in
  let '(_, e) := processWallet_end scope st2 loc lookup uuid now in
  is_decimal_string (balance e) = true.
Proof.
  intros Hr. unfold processWallet_begin.
  assert (forall bal, is_decimal_string bal = true ->
            is_decimal_string (settle_balance bal lookup) = true) as S.
  { intros bal Hb. rewrite settle_balance_spec.
    destruct lookup as [[wei|]|]; try assumption.
    destruct (wei =? 0)%N; [assumption | apply is_decimal_formatEther]. }
  destruct (Qle_bool 100 (scope_quantumCalibration scope) && negb (discoveryLockRef st));
    cbn; apply S; [now apply synthetic_balance_decimal | reflexivity].
Qed.

(** ** The connectivity poll *)

(** C7. When the poll faults, the status becomes disconnected with no latency
    and keeps the block height, the chain id and the other fields it had; when
    it succeeds, the status is replaced by a connected one made of the fresh
    values.  Nothing else of the state changes on a fault. *)
Theorem checkNode_status st url elapsed r :
  (let st' := checkNode st url Rejected elapsed in
   connected (nodeStatus st') = false /\ latency (nodeStatus st') = None /\
   blockNumber (nodeStatus st') = blockNumber (nodeStatus st) /\
   chainId (nodeStatus st') = chainId (nodeStatus st) /\
   rpcUrl (nodeStatus st') = rpcUrl (nodeStatus st) /\
   gasPrice (nodeStatus st') = gasPrice (nodeStatus st) /\
   set_nodeStatus (nodeStatus st) st' = st) /\
  (let st' := checkNode st url (Fulfilled r) elapsed in
   nodeStatus st' =
     {| connected := true; blockNumber := Some (poll_blockNumber r);
        latency := Some elapsed; rpcUrl := url;
        chainId := Some (poll_chainId r);
        gasPrice := gas_price_label (poll_gasPrice r) |}).
Proof.
  split; cbn.
  - repeat split. destruct st; reflexivity.
  - reflexivity.
Qed.

(** ** Every task, step by step *)

Lemma core_checkNode st url outcome elapsed :
  core (checkNode st url outcome elapsed) = core st.
Proof. destruct outcome; reflexivity. Qed.

Lemma nth_error_remove_length {A} (l : list A) k x :
  nth_error l k = Some x -> S (List.length (remove_nth k l)) = List.length l.
Proof.
  revert l. induction k as [|k IH]; intros [|y l] H; simpl in *; try discriminate.
  - reflexivity.
  - now rewrite (IH l H).
Qed.

Section StepInduction.

Variable JSON_parse : string -> option SecurityReport.
Variable V : Q -> Prop.
Variable R : Runtime -> Runtime -> Prop.

Hypothesis R_trans : forall a b c, R a b -> R b c -> R a c.
Hypothesis R_frame : forall rt rt', same_view rt rt' -> R rt rt'.
Hypothesis R_enter : forall scope io rt, R rt (fst (fst (enter scope io rt))).
Hypothesis R_finish :
  forall scope loc lookup uuid now rt, R rt (finish scope loc lookup uuid now rt).
Hypothesis R_tick : forall random rt, V random -> R rt (with_app (tick (app rt) random) rt).
Hypothesis R_observe : forall t rt, R rt (observe t rt).

Local Ltac frame := apply R_frame; repeat split.

Lemma R_refl rt : R rt rt.
Proof. frame. Qed.

Lemma R_spawn round scope io rt : R rt (spawn round scope io rt).
Proof.
  unfold spawn. pose proof (R_enter scope io rt) as H.
  destruct (enter scope io rt) as [[rt1 loc] lookup]. simpl in H.
  apply R_trans with rt1; [assumption|].
  destruct lookup; [frame | apply R_finish].
Qed.

Lemma R_run_batch round scope gen count i rt :
  R rt (run_batch round scope gen count i rt).
Proof.
  revert i rt. induction count as [|count IH]; intros i rt; simpl.
  - apply R_refl.
  - eapply R_trans; [apply R_spawn | apply IH].
Qed.

Lemma R_await_round round scope rt : R rt (await_round round scope rt).
Proof.
  unfold await_round, round_settled.
  destruct (round_pending round rt); [apply R_refl|].
  destruct (isScanningRef (app rt)); [frame | apply R_refl].
Qed.

Lemma R_startScanLoop scope gen rt : R rt (startScanLoop scope gen rt).
Proof.
  unfold startScanLoop. destruct (negb (isScanningRef (app rt))); [apply R_refl|].
  eapply R_trans; [|apply R_await_round].
  eapply R_trans; [|apply R_run_batch]. frame.
Qed.

Lemma R_resume k outcome uuid now rt : R rt (resume k outcome uuid now rt).
Proof.
  unfold resume. destruct (nth_error (suspended rt) k) as [[[round scope] loc]|];
    [|apply R_refl].
  eapply R_trans; [|apply R_await_round].
  eapply R_trans; [|apply R_finish]. frame.
Qed.

Lemma R_toggleScan now gen rt : R rt (toggleScan now gen rt).
Proof.
  unfold toggleScan. destruct (isScanning (app rt)).
  - unfold clearTimeout. cbn [app with_app scanLoopRef set_scanning].
    destruct (scanLoopRef (app rt)); frame.
  - eapply R_trans with (startScanLoop (callback_scope rt) gen
                           (observe now (with_app (set_scanning true (app rt)) rt)));
      [|frame].
    eapply R_trans; [|apply R_startScanLoop].
    eapply R_trans; [|apply R_observe]. frame.
Qed.

Lemma R_handle ev rt : valid_event V ev -> R rt (handle JSON_parse ev rt).
Proof.
  intros Hv. destruct ev; cbn [handle].
  - apply R_toggleScan.
  - unfold fire_timer. destruct (timers rt) as [|[h scope] rest]; [apply R_refl|].
    eapply R_trans; [|apply R_startScanLoop]. frame.
  - apply R_resume.
  - apply R_tick, Hv.
  - unfold triggerLuckPulse. destruct (isScanning (app rt)); frame.
  - unfold luck_timeout. destruct (luck_timeouts rt); frame.
  - frame. cbn [app with_app]. apply core_checkNode.
  - unfold report_settles. destruct (reports_pending rt); [apply R_refl|].
    frame. cbn [app with_app with_reports]. unfold runAnalysis.
    destruct (auditWalletSetup JSON_parse response); reflexivity.
  - destruct ((1 <=? n)%nat && (n <=? 512)%nat); frame.
  - frame.
Qed.

Lemma R_step ev rt : valid_event V ev -> R rt (step JSON_parse rt ev).
Proof.
  intros Hv. unfold step. eapply R_trans; [apply R_handle, Hv|].
  unfold rerender. match goal with |- context [if ?c then _ else _] => destruct c end;
    frame.
Qed.

Lemma R_run evs rt : Forall (valid_event V) evs -> R rt (run JSON_parse rt evs).
Proof.
  intros Hv. revert rt. induction Hv as [|ev evs Hev _ IH]; intros rt; simpl.
  - apply R_refl.
  - eapply R_trans; [apply R_step, Hev | apply IH].
Qed.

End StepInduction.

(** What the two halves of a [processWallet] call do to the observed state. *)

Lemma enter_view scope io rt :
  let '(rt1, loc, _) := enter scope io rt in
  wallets (app rt1) = wallets (app rt) /\
  discovered (app rt1) = discovered (app rt) /\
  quantumCalibration (app rt1) = quantumCalibration (app rt) /\
  last_now rt1 = last_now rt /\ clock_ok rt1 = clock_ok rt /\
  suspended rt1 = suspended rt /\ attemptsRef (app rt1) = attemptsRef (app rt) /\
  ((l_forcedHit loc = true /\ discoveryLockRef (app rt) = false /\
    discoveryLockRef (app rt1) = true /\ history rt1 = ForcedHit :: history rt)
   \/
   (l_forcedHit loc = false /\
    discoveryLockRef (app rt1) = discoveryLockRef (app rt) /\
    history rt1 = history rt)).
Proof.
  unfold enter, processWallet_begin.
  destruct (Qle_bool 100 (scope_quantumCalibration scope)); cbn [andb].
  - destruct (discoveryLockRef (app rt)) eqn:L; cbn [negb].
    + cbn. repeat split. right. repeat split. assumption.
    + cbn. repeat split. left. repeat split.
  - cbn. repeat split. right. repeat split.
Qed.

Lemma finish_view scope loc lookup uuid now rt :
  let rt' := finish scope loc lookup uuid now rt in
  last_now rt' = Some now /\
  clock_ok rt' = clock_ok rt &&
                 match last_now rt with Some t0 => (t0 <=? now)%Z | None => true end /\
  suspended rt' = suspended rt /\
  attemptsRef (app rt') = S (attemptsRef (app rt)) /\
  isScanningRef (app rt') = isScanningRef (app rt) /\
  exists e, timestamp e = now /\
    ((in_discoveries (app rt) (app rt') e /\
      quantumCalibration (app rt') = 0 /\ discoveryLockRef (app rt') = false /\
      history rt' = Reset :: history rt)
     \/
     (in_ordinary (app rt) (app rt') e /\
      quantumCalibration (app rt') = quantumCalibration (app rt) /\
      discoveryLockRef (app rt') = discoveryLockRef (app rt) /\
      history rt' = history rt)).
Proof.
  unfold finish, processWallet_end.
  set (e := mkWalletEntry _ _ _ _ _ _ _).
  destruct (gt0 (parseFloat (settle_balance (l_balance loc) lookup)) || l_isTargetMatch loc).
  - cbn [discovered record_discovery set_attemptsRef List.length].
    assert ((List.length (discovered (app rt)) <? S (List.length (discovered (app rt))))%nat = true)
      as -> by (apply Nat.ltb_lt; lia).
    cbn. repeat split; try lia. exists e. split; [reflexivity|]. left. repeat split.
  - cbn [discovered record_sighting set_wallets set_attemptsRef].
    rewrite Nat.ltb_irrefl.
    cbn. repeat split; try lia. exists e. split; [reflexivity|]. right. repeat split.
Qed.

Lemma calibration_step_range luck prev random :
  0 <= random -> 0 <= prev -> prev <= 100 ->
  prev <= calibration_step luck prev random /\
  calibration_step luck prev random <= 100.
Proof.
  intros Hr H0 H1. unfold calibration_step.
  set (multiplier := if luck then 45 # 10 else 8 # 10).
  assert (0 <= random * multiplier) as Hm.
  { apply Qmult_le_0_compat; [assumption|]. destruct luck; unfold multiplier, Qle; simpl; lia. }
  destruct (Qle_bool 100 (prev + random * multiplier)) eqn:E.
  - split; [assumption | lra].
  - split; [lra|].
    destruct (Qlt_le_dec (prev + random * multiplier) 100) as [L|L]; [lra|].
    apply Qle_bool_iff in L. congruence.
Qed.

Lemma calibration_in_range_run JSON_parse evs rt :
  Forall (valid_event unit_interval) evs ->
  calibration_in_range rt -> calibration_in_range (run JSON_parse rt evs).
Proof.
  intros Hv.
  apply (R_run JSON_parse unit_interval
           (fun a b => calibration_in_range a -> calibration_in_range b));
    try assumption; unfold calibration_in_range.
  - auto.
  - intros a b (Hc & _). unfold core in Hc. injection Hc as _ _ Hq _. now rewrite Hq.
  - intros scope io a. pose proof (enter_view scope io a) as H.
    destruct (enter scope io a) as [[rt1 loc] lk]. cbn [fst].
    destruct H as (_ & _ & Hq & _). now rewrite Hq.
  - intros scope loc lookup uuid now a.
    destruct (finish_view scope loc lookup uuid now a)
      as (_ & _ & _ & _ & _ & e & _ & [(_ & Hq & _) | (_ & Hq & _)]); rewrite Hq.
    + intros _. split; unfold Qle; simpl; lia.
    + auto.
  - intros random a [Hr _] [H0 H1]. cbn [app with_app]. unfold tick.
    destruct (isScanning (app a)); [|split; assumption].
    cbn [quantumCalibration set_quantumCalibration].
    destruct (calibration_step_range (luckActive (app a)) _ random Hr H0 H1).
    split; [lra | assumption].
  - intros t a. auto.
Qed.

(** The ordinary list never holds more than 15 entries. *)
Lemma wallets_capped_run JSON_parse evs rt :
  (List.length (wallets (app rt)) <= 15)%nat ->
  (List.length (wallets (app (run JSON_parse rt evs))) <= 15)%nat.
Proof.
  apply (R_run JSON_parse (fun _ => True)
           (fun a b => (List.length (wallets (app a)) <= 15)%nat ->
                       (List.length (wallets (app b)) <= 15)%nat)).
  - auto.
  - intros a b (Hc & _). unfold core in Hc. injection Hc as Hw _ _ _. now rewrite Hw.
  - intros scope io a. pose proof (enter_view scope io a) as H.
    destruct (enter scope io a) as [[rt1 loc] lk]. cbn [fst].
    destruct H as (Hw & _). now rewrite Hw.
  - intros scope loc lookup uuid now a.
    destruct (finish_view scope loc lookup uuid now a)
      as (_ & _ & _ & _ & _ & e & _ & [((_ & Hw) & _) | ((Hw & _) & _)]); rewrite Hw.
    + auto.
    + intros _. apply firstn_le_length.
  - intros random a _. cbn [app with_app]. unfold tick.
    destruct (isScanning (app a)); auto.
  - auto.
  - apply Forall_forall. intros ev _. destruct ev; exact I.
Qed.

Lemma lock_discipline_run JSON_parse evs rt :
  lock_discipline rt -> lock_discipline (run JSON_parse rt evs).
Proof.
  apply (R_run JSON_parse (fun _ => True)
           (fun a b => lock_discipline a -> lock_discipline b));
    unfold lock_discipline.
  - auto.
  - intros a b (Hc & Hh & _). unfold core in Hc. injection Hc as _ _ _ Hl.
    now rewrite Hh, Hl.
  - intros scope io a. pose proof (enter_view scope io a) as H.
    destruct (enter scope io a) as [[rt1 loc] lk]. cbn [fst].
    destruct H as (_ & _ & _ & _ & _ & _ & _ & [(_ & L0 & L1 & Hh) | (_ & L & Hh)]);
      rewrite Hh; intros [W F].
    + split; [|congruence]. cbn [well_separated]. now rewrite (F L0), W.
    + now rewrite L.
  - intros scope loc lookup uuid now a.
    destruct (finish_view scope loc lookup uuid now a)
      as (_ & _ & _ & _ & _ & e & _ & [(_ & _ & L & Hh) | (_ & _ & L & Hh)]);
      rewrite Hh, L; intros [W F].
    + split; [assumption | reflexivity].
    + split; assumption.
  - intros random a _. cbn [app with_app history]. unfold tick.
    destruct (isScanning (app a)); auto.
  - auto.
  - apply Forall_forall. intros ev _. destruct ev; exact I.
Qed.

Lemma steady_or_reset_step JSON_parse ev rt :
  valid_event (fun _ => False) ev -> steady_or_reset rt (step JSON_parse rt ev).
Proof.
  apply (R_step JSON_parse (fun _ => False) steady_or_reset); unfold steady_or_reset.
  - intros a b c [[Q1 D1] | [Q1 D1]] [[Q2 D2] | [Q2 D2]].
    + left. split; congruence.
    + right. split; [assumption|]. now rewrite <- D1.
    + right. split; [congruence|]. now rewrite D2.
    + right. split; [assumption | lia].
  - intros a b (Hc & _). unfold core in Hc. injection Hc as _ Hd Hq _. left. now split.
  - intros scope io a. pose proof (enter_view scope io a) as H.
    destruct (enter scope io a) as [[rt1 loc] lk]. cbn [fst].
    destruct H as (_ & Hd & Hq & _). left. now split.
  - intros scope loc lookup uuid now a.
    destruct (finish_view scope loc lookup uuid now a)
      as (_ & _ & _ & _ & _ & e & _ & [((Hd & _) & Hq & _) | ((_ & Hd) & Hq & _)]).
    + right. split; [assumption|]. rewrite Hd. simpl. lia.
    + left. now split.
  - intros random a [].
  - intros t a. left. now split.
Qed.

Lemma nonincreasing_cons a l :
  (forall b, In b l -> (b <= a)%Z) -> nonincreasing l = true ->
  nonincreasing (a :: l) = true.
Proof.
  intros Hb Hl. destruct l as [|b t]; [reflexivity|].
  cbn [nonincreasing] in *. rewrite Hl, andb_true_r. apply Z.leb_le, Hb. now left.
Qed.

Lemma In_firstn {A} n (l : list A) x : In x (firstn n l) -> In x l.
Proof.
  revert l. induction n as [|n IH]; intros [|a l] H; simpl in *; try tauto.
  destruct H as [H | H]; [now left | right; now apply IH].
Qed.

Lemma nonincreasing_firstn n l :
  nonincreasing l = true -> nonincreasing (firstn n l) = true.
Proof.
  revert l. induction n as [|n IH]; intros [|a l] H; try reflexivity.
  cbn [firstn]. apply nonincreasing_cons.
  - intros b Hb. apply In_firstn in Hb.
    clear IH. revert a H. induction l as [|c l IHl]; intros a H; [destruct Hb|].
    cbn [nonincreasing] in H. apply andb_true_iff in H as [H1 H2].
    apply Z.leb_le in H1. destruct Hb as [<- | Hb]; [assumption|].
    specialize (IHl Hb c H2). lia.
  - apply IH. destruct l as [|b t]; [reflexivity|].
    cbn [nonincreasing] in H. apply andb_true_iff in H. tauto.
Qed.

Lemma chronological_run JSON_parse evs rt :
  chronological rt -> chronological (run JSON_parse rt evs).
Proof.
  apply (R_run JSON_parse (fun _ => True)
           (fun a b => chronological a -> chronological b));
    unfold chronological.
  - auto.
  - intros a b (Hc & _ & Hn & Hk). unfold core in Hc. injection Hc as Hw _ _ _.
    now rewrite Hw, Hn, Hk.
  - intros scope io a. pose proof (enter_view scope io a) as H.
    destruct (enter scope io a) as [[rt1 loc] lk]. cbn [fst].
    destruct H as (Hw & _ & _ & Hn & Hk & _). now rewrite Hw, Hn, Hk.
  - intros scope loc lookup uuid now a.
    destruct (finish_view scope loc lookup uuid now a)
      as (Hn & Hk & _ & _ & _ & e & He & Hcase).
    intros IH Hok. rewrite Hk in Hok. apply andb_true_iff in Hok as [Hok Hle].
    destruct (IH Hok) as [Hs Hb].
    assert (forall x, In x (wallets (app a)) -> (timestamp x <= now)%Z) as Hbound.
    { intros x Hx. destruct (Hb x Hx) as (t & Ht & Hxt).
      rewrite Ht in Hle. apply Z.leb_le in Hle. lia. }
    destruct Hcase as [((_ & Hw) & _) | ((Hw & _) & _)]; rewrite Hw, Hn.
    + split; [assumption|]. intros x Hx. exists now. split; [reflexivity | auto].
    + split.
      * rewrite <- firstn_map. apply nonincreasing_firstn. cbn [map].
        apply nonincreasing_cons; [|assumption].
        intros b Hin. apply in_map_iff in Hin as (x & <- & Hx). rewrite He. auto.
      * intros x Hx. apply In_firstn in Hx. exists now. split; [reflexivity|].
        destruct Hx as [<- | Hx]; [lia | auto].
  - intros random a _. cbn [app with_app]. unfold tick.
    destruct (isScanning (app a)); auto.
  - intros t a IH Hok. cbn [observe clock_ok] in Hok.
    apply andb_true_iff in Hok as [Hok Hle].
    destruct (IH Hok) as [Hs Hb]. cbn [observe app last_now].
    split; [assumption|]. intros x Hx. exists t. split; [reflexivity|].
    destruct (Hb x Hx) as (t0 & Ht0 & Hxt). rewrite Ht0 in Hle.
    apply Z.leb_le in Hle. lia.
  - apply Forall_forall. intros ev _. destruct ev; exact I.
Qed.

Lemma app_rerender rt : app (rerender rt) = app rt.
Proof.
  unfold rerender.
  match goal with |- context [if ?c then _ else _] => destruct c end; reflexivity.
Qed.

Lemma history_rerender rt : history (rerender rt) = history rt.
Proof.
  unfold rerender.
  match goal with |- context [if ?c then _ else _] => destruct c end; reflexivity.
Qed.

Lemma initial_in_range : calibration_in_range initial_runtime.
Proof. split; unfold Qle; simpl; lia. Qed.

Lemma initial_lock_discipline : lock_discipline initial_runtime.
Proof. split; reflexivity. Qed.

Lemma initial_chronological : chronological initial_runtime.
Proof. intros _. split; [reflexivity | intros e []]. Qed.

(** C4. From the initial state, whatever tasks run: the calibration value
    stays within 0 and 100; a tick while a scan is active adds a non-negative
    amount and clamps the sum at 100, and leaves the value alone otherwise; in
    any task the value either does not decrease, or ends at exactly 0 with a
    discovery recorded in that task, and every task that records a discovery
    leaves it at 0; and no forced hit is computed between an earlier forced hit
    and the reset that follows it. *)
Theorem calibration_gauge JSON_parse evs ev :
  Forall (valid_event unit_interval) evs ->
  valid_event unit_interval ev ->
  let rt := run JSON_parse initial_runtime evs in
  let rt' := step JSON_parse rt ev in
  let before := quantumCalibration (app rt) in
  let after := quantumCalibration (app rt') in
  (0 <= before /\ before <= 100) /\
  (forall random, ev = EvTick random ->
     if isScanning (app rt)
     then exists increment, 0 <= increment /\
            after = if Qle_bool 100 (before + increment) then 100
                    else before + increment
     else after = before) /\
  (before <= after \/
   (after = 0 /\
    (List.length (discovered (app rt)) < List.length (discovered (app rt')))%nat)) /\
  ((List.length (discovered (app rt)) < List.length (discovered (app rt')))%nat ->
   after = 0) /\
  well_separated (history rt') = true.
Proof.
  intros Hevs Hev rt rt' before after.
  pose proof (calibration_in_range_run JSON_parse evs initial_runtime Hevs
                initial_in_range) as Hrange.
  fold rt in Hrange. destruct Hrange as [H0 H1].
  assert (lock_discipline rt') as [Hsep _].
  { unfold rt', rt. change (step JSON_parse (run JSON_parse initial_runtime evs) ev)
      with (run JSON_parse (run JSON_parse initial_runtime evs) [ev]).
    apply lock_discipline_run, lock_discipline_run, initial_lock_discipline. }
  split; [split; assumption|].
  assert (forall random, ev = EvTick random -> app rt' = tick (app rt) random) as Htick.
  { intros random ->. unfold rt', step. rewrite app_rerender. reflexivity. }
  assert ((exists random, ev = EvTick random) \/ steady_or_reset rt rt') as Hkind.
  { destruct ev; try (right; apply steady_or_reset_step; exact I).
    left. eexists. reflexivity. }
  split; [|split; [|split]]; try assumption.
  - intros random E. unfold after. rewrite (Htick random E). unfold tick, before.
    destruct (isScanning (app rt)); [|reflexivity].
    cbn [quantumCalibration set_quantumCalibration]. unfold calibration_step.
    exists (random * (if luckActive (app rt) then 45 # 10 else 8 # 10)).
    split; [|reflexivity].
    subst ev. destruct Hev as [Hr _].
    apply Qmult_le_0_compat; [assumption|].
    destruct (luckActive (app rt)); unfold Qle; simpl; lia.
  - destruct Hkind as [(random & E) | [[Hq _] | [Hq Hd]]].
    + left. unfold after. rewrite (Htick random E). unfold tick, before.
      destruct (isScanning (app rt)); [|lra].
      cbn [quantumCalibration set_quantumCalibration].
      subst ev. destruct Hev as [Hr _].
      apply (calibration_step_range _ _ _ Hr H0 H1).
    + left. unfold after, before. rewrite Hq. lra.
    + right. split; assumption.
  - intros Hd. destruct Hkind as [(random & E) | [[_ Hs] | [Hq _]]].
    + exfalso. rewrite (Htick random E) in Hd. unfold tick in Hd.
      destruct (isScanning (app rt)); cbn in Hd; lia.
    + rewrite Hs in Hd. lia.
    + exact Hq.
Qed.

(** ** Stopping a session *)

Lemma await_round_idle round scope rt :
  isScanningRef (app rt) = false -> await_round round scope rt = rt.
Proof.
  intros H. unfold await_round, round_settled. rewrite H.
  destruct (round_pending round rt); reflexivity.
Qed.

Lemma startScanLoop_idle scope gen rt :
  isScanningRef (app rt) = false -> startScanLoop scope gen rt = rt.
Proof. intros H. unfold startScanLoop. now rewrite H. Qed.

(** What a settling lookup does while no session is active: the record is
    appended, with the time of the settlement. *)
Lemma resume_idle k outcome uuid now rt :
  isScanningRef (app rt) = false ->
  (k < List.length (suspended rt))%nat ->
  let rt' := resume k outcome uuid now rt in
  isScanningRef (app rt') = false /\
  S (List.length (suspended rt')) = List.length (suspended rt) /\
  attemptsRef (app rt') = S (attemptsRef (app rt)) /\
  timers rt' = timers rt /\
  exists e, timestamp e = now /\
    (in_discoveries (app rt) (app rt') e \/ in_ordinary (app rt) (app rt') e).
Proof.
  intros Hidle Hk. unfold resume.
  destruct (nth_error (suspended rt) k) as [[[round scope] loc]|] eqn:E;
    [|apply nth_error_None in E; lia].
  set (rt1 := with_suspended (remove_nth k (suspended rt)) rt).
  destruct (finish_view scope loc (Some outcome) uuid now rt1)
    as (_ & _ & Hs & Ha & Hf & e & He & Hcase).
  rewrite await_round_idle by (rewrite Hf; exact Hidle).
  cbv zeta. rewrite Hf, Hs, Ha. cbn [rt1 app with_suspended suspended].
  repeat split; try assumption.
  - apply (nth_error_remove_length _ _ _ E).
  - unfold finish. destruct (processWallet_end _ _ _ _ _ _).
    match goal with |- context [if ?c then _ else _] => destruct c end; reflexivity.
  - exists e. split; [assumption|]. destruct Hcase as [(H & _) | (H & _)]; auto.
Qed.

(** While no session is active and the button is not pressed, no wallet is
    generated: a wallet is processed only by taking it from those whose lookup
    is in flight. *)
Lemma idle_step JSON_parse ev rt :
  isScanningRef (app rt) = false -> is_toggle ev = false ->
  let rt' := step JSON_parse rt ev in
  isScanningRef (app rt') = false /\
  (attemptsRef (app rt') + List.length (suspended rt')
   = attemptsRef (app rt) + List.length (suspended rt))%nat.
Proof.
  intros Hidle Hev. unfold step.
  assert (forall x, isScanningRef (app x) = false /\
                    (attemptsRef (app x) + List.length (suspended x)
                     = attemptsRef (app rt) + List.length (suspended rt))%nat ->
                    isScanningRef (app (rerender x)) = false /\
                    (attemptsRef (app (rerender x)) + List.length (suspended (rerender x))
                     = attemptsRef (app rt) + List.length (suspended rt))%nat) as Hre.
  { intros x Hx. rewrite app_rerender.
    replace (suspended (rerender x)) with (suspended x); [exact Hx|].
    unfold rerender.
    match goal with |- context [if ?c then _ else _] => destruct c end; reflexivity. }
  cbv zeta. apply Hre. destruct ev; try discriminate; cbn [handle].
  - unfold fire_timer. destruct (timers rt) as [|[h scope] rest]; [now split|].
    rewrite startScanLoop_idle by exact Hidle. now split.
  - destruct (Nat.lt_ge_cases k (List.length (suspended rt))) as [Hk | Hk].
    + destruct (resume_idle k outcome uuid now rt Hidle Hk) as (Hf & Hs & Ha & _).
      split; [assumption | lia].
    + unfold resume. apply nth_error_None in Hk. rewrite Hk. now split.
  - cbn [app with_app suspended]. unfold tick.
    destruct (isScanning (app rt)); now split.
  - unfold triggerLuckPulse. destruct (isScanning (app rt)); now split.
  - unfold luck_timeout. destruct (luck_timeouts rt); now split.
  - cbn [app with_app suspended]. destruct outcome; now split.
  - unfold report_settles. destruct (reports_pending rt); [now split|].
    cbn [app with_app with_reports suspended]. unfold runAnalysis.
    destruct (auditWalletSetup JSON_parse response); now split.
  - destruct ((1 <=? n)%nat && (n <=? 512)%nat); now split.
  - now split.
Qed.

Lemma idle_run JSON_parse evs rt :
  isScanningRef (app rt) = false ->
  Forall (fun ev => is_toggle ev = false) evs ->
  let rt' := run JSON_parse rt evs in
  isScanningRef (app rt') = false /\
  (attemptsRef (app rt') + List.length (suspended rt')
   = attemptsRef (app rt) + List.length (suspended rt))%nat.
Proof.
  intros Hidle Hevs. revert rt Hidle.
  induction Hevs as [|ev evs Hev _ IH]; intros rt Hidle; cbn [run fold_left].
  - now split.
  - destruct (idle_step JSON_parse ev rt Hidle Hev) as [Hi Hc].
    destruct (IH _ Hi) as [Hi' Hc']. split; [assumption|].
    unfold run in Hc'. lia.
Qed.

Lemma stop_request JSON_parse now gen rt :
  isScanning (app rt) = true ->
  let rt' := step JSON_parse rt (EvToggleScan now gen) in
  isScanning (app rt') = false /\ isScanningRef (app rt') = false /\
  suspended rt' = suspended rt /\
  wallets (app rt') = wallets (app rt) /\
  discovered (app rt') = discovered (app rt) /\
  (forall h, scanLoopRef (app rt) = Some h -> ~ In h (map fst (timers rt'))).
Proof.
  intros Hs. unfold step. cbn [handle]. unfold toggleScan. rewrite Hs.
  set (x := clearTimeout _ _).
  assert (app x = set_scanning false (app rt)) as Hx.
  { unfold x, clearTimeout. cbn [app with_app scanLoopRef set_scanning].
    destruct (scanLoopRef (app rt)); reflexivity. }
  assert (suspended x = suspended rt) as Hsx.
  { unfold x, clearTimeout. cbn [app with_app scanLoopRef set_scanning].
    destruct (scanLoopRef (app rt)); reflexivity. }
  assert (forall y, timers (rerender y) = timers y /\ suspended (rerender y) = suspended y)
    as Hre.
  { intros y. unfold rerender.
    match goal with |- context [if ?c then _ else _] => destruct c end; now split. }
  cbv zeta. rewrite app_rerender, Hx. destruct (Hre x) as [-> ->].
  repeat split; try assumption.
  intros h Hh Hin. unfold x, clearTimeout in Hin.
  cbn [app with_app scanLoopRef set_scanning] in Hin. rewrite Hh in Hin.
  cbn [timers with_timers with_app] in Hin.
  apply in_map_iff in Hin as ([h' s] & E & Hf). cbn in E. subst h'.
  apply filter_In in Hf as [_ Hf]. cbn in Hf. rewrite Nat.eqb_refl in Hf. discriminate.
Qed.

(** C5, as the code has it. A stop request clears the session flag and
    cancels the armed timer of the next round.  From then on, as long as the
    button is not pressed again, no round starts: every wallet processed
    afterwards is one whose balance lookup was in flight at the stop.  Such a
    wallet is not discarded: when its lookup settles its record is appended to
    one of the two lists with the time of that moment as its time stamp. *)
Theorem stop_cancels_next_round JSON_parse rt now gen evs k outcome uuid t :
  isScanning (app rt) = true ->
  Forall (fun ev => is_toggle ev = false) evs ->
  (k < List.length
         (suspended
            (run JSON_parse (step JSON_parse rt (EvToggleScan now gen)) evs)))%nat ->
  let stopped := step JSON_parse rt (EvToggleScan now gen) in
  let later := run JSON_parse stopped evs in
  let settled := step JSON_parse later (EvBalance k outcome uuid t) in
  (isScanningRef (app stopped) = false /\
   forall h, scanLoopRef (app rt) = Some h -> ~ In h (map fst (timers stopped))) /\
  (isScanningRef (app later) = false /\
   (attemptsRef (app later) + List.length (suspended later)
    = attemptsRef (app stopped) + List.length (suspended stopped))%nat) /\
  (attemptsRef (app settled) = S (attemptsRef (app later)) /\
   exists e, timestamp e = t /\
     (in_discoveries (app later) (app settled) e \/
      in_ordinary (app later) (app settled) e)).
Proof.
  intros Hs Hevs Hk stopped later settled.
  destruct (stop_request JSON_parse now gen rt Hs) as (_ & Hidle & _ & _ & _ & Htimer).
  fold stopped in Hidle, Htimer.
  destruct (idle_run JSON_parse evs stopped Hidle Hevs) as [Hidle' Hcount].
  fold later in Hidle', Hcount.
  split; [split; assumption|]. split; [split; assumption|].
  unfold settled, step. rewrite app_rerender. cbn [handle].
  destruct (resume_idle k outcome uuid t later Hidle' Hk) as (_ & _ & Ha & _ & He).
  split; assumption.
Qed.

(** ** The two lists *)

(** C8. Each new record is put at the head of its list.  The ordinary list is
    cut to its first 15 entries at every insertion and never holds more; the
    discoveries list grows by one at every insertion, whatever its length. *)
Theorem lists_newest_first JSON_parse evs scope st loc lookup uuid now :
  (List.length (wallets (app (run JSON_parse initial_runtime evs))) <= 15)%nat /\
  let '(st', e) := processWallet_end scope st loc lookup uuid now in
  (in_discoveries st st' e /\
   List.length (discovered st') = S (List.length (discovered st)))
  \/
  (in_ordinary st st' e /\
   wallets st' = e :: firstn 14 (wallets st) /\
   (List.length (wallets st') <= 15)%nat).
Proof.
  split.
  - apply wallets_capped_run. simpl. lia.
  - pose proof (end_routes scope st loc lookup uuid now) as R.
    destruct (processWallet_end scope st loc lookup uuid now) as [st' e].
    destruct R as (Rd & Ro & _).
    destruct (gt0 (parseFloat (balance e)) || l_isTargetMatch loc).
    + left. destruct (Rd eq_refl) as (Hd & _). split; [assumption|].
      destruct Hd as [-> _]. reflexivity.
    + right. destruct (Ro eq_refl) as (Ho & _). split; [assumption|].
      destruct Ho as [Hw _]. rewrite Hw. split; [reflexivity|].
      apply firstn_le_length.
Qed.

(** ** The report fetcher *)

Lemma requests_finish scope loc lookup uuid now rt :
  requests (finish scope loc lookup uuid now rt) = requests rt.
Proof.
  unfold finish. destruct (processWallet_end _ _ _ _ _ _).
  match goal with |- context [if ?c then _ else _] => destruct c end; reflexivity.
Qed.

Lemma requests_spawn round scope io rt :
  requests (spawn round scope io rt) = requests rt.
Proof.
  unfold spawn, enter.
  destruct (processWallet_begin _ _ _ _) as [[st1 loc] lookup].
  destruct (l_forcedHit loc); destruct lookup; try reflexivity;
    now rewrite requests_finish.
Qed.

Lemma requests_run_batch round scope gen count i rt :
  requests (run_batch round scope gen count i rt) = requests rt.
Proof.
  revert i rt. induction count as [|count IH]; intros i rt; simpl; [reflexivity|].
  now rewrite IH, requests_spawn.
Qed.

Lemma requests_await_round round scope rt :
  requests (await_round round scope rt) = requests rt.
Proof.
  unfold await_round, round_settled.
  destruct (round_pending round rt); [reflexivity|].
  destruct (isScanningRef (app rt)); reflexivity.
Qed.

Lemma requests_startScanLoop scope gen rt :
  requests (startScanLoop scope gen rt) = requests rt.
Proof.
  unfold startScanLoop. destruct (negb (isScanningRef (app rt))); [reflexivity|].
  now rewrite requests_await_round, requests_run_batch.
Qed.

Lemma requests_resume k outcome uuid now rt :
  requests (resume k outcome uuid now rt) = requests rt.
Proof.
  unfold resume. destruct (nth_error (suspended rt) k) as [[[round scope] loc]|];
    [|reflexivity].
  now rewrite requests_await_round, requests_finish.
Qed.

Lemma requests_rerender rt : requests (rerender rt) = requests rt.
Proof.
  unfold rerender.
  match goal with |- context [if ?c then _ else _] => destruct c end; reflexivity.
Qed.

Lemma reports_issued_rerender rt : reports_issued (rerender rt) = reports_issued rt.
Proof. pose proof (requests_rerender rt) as H. now injection H. Qed.

(** C9. When the report fetch faults (the call is rejected, or the text of
    the response does not parse) the stored report, like the rest of the state,
    is left as it was and no request is sent again; a request is sent only by
    the task that starts a session or by the boost button. *)
Theorem report_fault_keeps_report JSON_parse rt response ev :
  auditWalletSetup JSON_parse response = Rejected ->
  (auditWalletSetup JSON_parse Rejected = Rejected /\
   forall text, JSON_parse text = None ->
                auditWalletSetup JSON_parse (Fulfilled text) = Rejected) /\
  runAnalysis JSON_parse (app rt) response = app rt /\
  (let rt' := step JSON_parse rt (EvReport response) in
   app rt' = app rt /\ reports_issued rt' = reports_issued rt) /\
  (let rt' := step JSON_parse rt ev in
   reports_issued rt' = reports_issued rt \/
   (reports_issued rt' = S (reports_issued rt) /\
    ((ev = EvLuckPulse /\ isScanning (app rt) = true) \/
     exists now gen, ev = EvToggleScan now gen /\ isScanning (app rt) = false))).
Proof.
  intros Hfault. split; [split|split; [|split]].
  - reflexivity.
  - intros text Hp. unfold auditWalletSetup. now rewrite Hp.
  - unfold runAnalysis. now rewrite Hfault.
  - cbv zeta. unfold step. rewrite app_rerender, reports_issued_rerender.
    cbn [handle]. unfold report_settles.
    destruct (reports_pending rt); [now split|].
    cbn [app with_app with_reports reports_issued]. unfold runAnalysis.
    now rewrite Hfault.
  - cbv zeta. unfold step. rewrite reports_issued_rerender.
    destruct ev; cbn [handle].
    + unfold toggleScan. destruct (isScanning (app rt)) eqn:Hs.
      * left. unfold clearTimeout. cbn [app with_app scanLoopRef set_scanning].
        destruct (scanLoopRef (app rt)); reflexivity.
      * right. split; [|right; eauto].
        unfold request_report. cbn [reports_issued with_reports].
        pose proof (requests_startScanLoop (callback_scope rt) gen
                      (observe now (with_app (set_scanning true (app rt)) rt))) as H.
        injection H as _ H. now rewrite H.
    + left. unfold fire_timer. destruct (timers rt) as [|[h scope] rest]; [reflexivity|].
      pose proof (requests_startScanLoop scope gen (with_timers rest rt)) as H.
      injection H as _ H. exact H.
    + left. pose proof (requests_resume k outcome uuid now rt) as H.
      injection H as _ H. exact H.
    + left. reflexivity.
    + unfold triggerLuckPulse. destruct (isScanning (app rt)) eqn:Hs.
      * right. split; [reflexivity | left; now split].
      * left. reflexivity.
    + left. unfold luck_timeout. destruct (luck_timeouts rt); reflexivity.
    + left. reflexivity.
    + left. unfold report_settles. destruct (reports_pending rt); reflexivity.
    + left. destruct ((1 <=? n)%nat && (n <=? 512)%nat); reflexivity.
    + left. reflexivity.
Qed.

(** ** Balances and time stamps *)

(** C10, as the code has it. Whichever path produced it, the balance of a
    generated record is a non-negative decimal string; and as long as no
    clock reading went back, the time stamps of the ordinary list are
    non-increasing when it is read from its head, the newest entry (that is,
    non-decreasing from the oldest entry to the newest). *)
Theorem records_well_formed JSON_parse evs scope st wallet random st2 lookup uuid now :
  0 <= random ->
  clock_ok (run JSON_parse initial_runtime evs) = true ->
  (let '(_, loc, _) := processWallet_begin scope st wallet random in
   let '(_, e) := processWallet_end scope st2 loc lookup uuid now in
   is_decimal_string (balance e) = true) /\
  nonincreasing
    (map timestamp (wallets (app (run JSON_parse initial_runtime evs)))) = true.
Proof.
  intros Hr Hok. split.
  - apply balance_is_decimal, Hr.
  - apply (chronological_run JSON_parse evs initial_runtime initial_chronological Hok).
Qed.

(** ** Counterexamples to the claims the code does not satisfy as worded *)


(** C3 as worded fails: no execution computes a forced hit, gets zero from
    the lookup and ends with a zero-balance record in the ordinary list. *)
Lemma forced_hit_never_ordinary :
  ~ exists scope st io,
      100 <= scope_quantumCalibration scope /\
      discoveryLockRef st = false /\
      unit_interval (io_random io) /\
      io_lookup io = Fulfilled 0%N /\
      let '(st', e) := processWallet scope st io in
      ~ positive_balance e /\ ~ is_watch_target (address e) /\
      in_ordinary st st' e.
Proof.
  intros (scope & st & io & Hq & Hl & [Hr _] & Hz & H).
  pose proof (forced_hit_kept scope st io Hq Hl Hr (or_introl Hz)) as K.
  destruct (processWallet scope st io) as [st' e].
  destruct K as (_ & Hp & _). destruct H as (Hn & _). exact (Hn Hp).
Qed.

(** C5 as worded fails: the second session is stopped at 300 while the lookup
    of its forced hit is in flight; the lookup settles at 400 and the record
    is appended to the discoveries list with time stamp 400. *)
Lemma late_record_after_stop :
  let stopped :=
    run no_parse initial_runtime
      (second_session ++ [EvToggleScan 300 (sample_io 300)])%list in
  let settled := step no_parse stopped (EvBalance 0 (Fulfilled 0%N) "late" 400) in
  isScanning (app stopped) = false /\ isScanningRef (app stopped) = false /\
  timers stopped = [] /\ List.length (suspended stopped) = 1%nat /\
  discovered (app stopped) = [] /\
  clock_ok settled = true /\
  map timestamp (discovered (app settled)) = [400%Z] /\
  map id (discovered (app settled)) = ["late"] /\
  (300 < 400)%Z.
Proof. vm_compute. repeat split. Qed.

(** C10 as worded fails: after one round of two ordinary wallets read at
    times 1 and 2, the ordinary list read from its head has the time stamps
    2, 1, which is not a non-decreasing sequence. *)
Lemma ordinary_list_not_nondecreasing :
  let rt := run no_parse initial_runtime
              [EvSetThreads 2; EvToggleScan 0 (sample_io 1)] in
  clock_ok rt = true /\
  map timestamp (wallets (app rt)) = [2%Z; 1%Z] /\
  nondecreasing (map timestamp (wallets (app rt))) = false.
Proof. vm_compute. repeat split. Qed.

(** ** The theorems at concrete inputs *)


Lemma forced_hit_survives_empty_lookup_witness :
  let scope := mkRenderScope 100 (Some 1%Z) 1 in
  let st := set_providerRef (Some default_rpc) initial_state in
  (100 <= scope_quantumCalibration scope /\ discoveryLockRef st = false /\
   0 <= io_random (sample_io 7 0) /\
   io_lookup (sample_io 7 0) = Fulfilled 0%N) /\
  let '(st', e) := processWallet scope st (sample_io 7 0) in
  in_discoveries st st' e /\ positive_balance e /\
  balance e = synthetic_balance (io_random (sample_io 7 0)).
Proof.
  intros scope st.
  assert (H1 : 100 <= scope_quantumCalibration scope) by (unfold Qle; simpl; lia).
  assert (H2 : discoveryLockRef st = false) by reflexivity.
  assert (H3 : 0 <= io_random (sample_io 7 0)) by (unfold Qle; simpl; lia).
  assert (H4 : io_lookup (sample_io 7 0) = Fulfilled 0%N) by reflexivity.
  split; [exact (conj H1 (conj H2 (conj H3 H4)))|].
  exact (forced_hit_survives_empty_lookup scope st (sample_io 7 0) H1 H2 H3
           (or_introl H4)).
Defined.

Lemma calibration_gauge_witness :
  let evs := [EvSetThreads 2; EvToggleScan 0 (sample_io 0); EvTick (1 # 2)] in
  let rt := run no_parse initial_runtime evs in
  let rt' := step no_parse rt (EvTick (1 # 2)) in
  (Forall (valid_event unit_interval) evs /\
   valid_event unit_interval (EvTick (1 # 2))) /\
  (0 <= quantumCalibration (app rt) /\ quantumCalibration (app rt) <= 100) /\
  well_separated (history rt') = true.
Proof.
  intros evs rt rt'.
  assert (H3 : unit_interval (1 # 2))
    by (split; [unfold Qle | unfold Qlt]; simpl; lia).
  assert (H1 : Forall (valid_event unit_interval) evs)
    by (apply Forall_cons; [exact I|]; apply Forall_cons; [exact I|];
        apply Forall_cons; [exact H3 | apply Forall_nil]).
  assert (H2 : valid_event unit_interval (EvTick (1 # 2))) by exact H3.
  split; [exact (conj H1 H2)|].
  pose proof (calibration_gauge no_parse evs (EvTick (1 # 2)) H1 H2) as W.
  cbv zeta in W. split; [exact (proj1 W) | exact (proj2 (proj2 (proj2 (proj2 W))))].
Defined.

Lemma stop_cancels_next_round_witness :
  let rt := run no_parse initial_runtime second_session in
  let evs := [EvTick (1 # 2); EvTimer (sample_io 310); EvDismissAlert] in
  let stopped := step no_parse rt (EvToggleScan 300 (sample_io 300)) in
  let later := run no_parse stopped evs in
  let settled := step no_parse later (EvBalance 0 (Fulfilled 0%N) "late" 400) in
  (isScanning (app rt) = true /\
   Forall (fun ev => is_toggle ev = false) evs /\
   (0 < List.length (suspended later))%nat) /\
  isScanningRef (app later) = false /\
  attemptsRef (app settled) = S (attemptsRef (app later)).
Proof.
  intros rt evs stopped later settled.
  assert (H1 : isScanning (app rt) = true) by (vm_compute; reflexivity).
  assert (H2 : Forall (fun ev => is_toggle ev = false) evs)
    by (repeat constructor).
  assert (H3 : (0 < List.length (suspended later))%nat) by (vm_compute; lia).
  split; [exact (conj H1 (conj H2 H3))|].
  pose proof (stop_cancels_next_round no_parse rt 300 (sample_io 300) evs 0
                (Fulfilled 0%N) "late" 400 H1 H2 H3) as W.
  cbv zeta in W.
  split; [exact (proj1 (proj1 (proj2 W))) | exact (proj1 (proj2 (proj2 W)))].
Defined.

Lemma report_fault_keeps_report_witness :
  auditWalletSetup no_parse (Fulfilled "not json") = Rejected /\
  (let rt' := step no_parse initial_runtime (EvReport (Fulfilled "not json")) in
   app rt' = app initial_runtime /\
   reports_issued rt' = reports_issued initial_runtime).
Proof.
  assert (H : auditWalletSetup no_parse (Fulfilled "not json") = Rejected)
    by reflexivity.
  split; [assumption|].
  exact (proj1 (proj2 (proj2
           (report_fault_keeps_report no_parse initial_runtime
              (Fulfilled "not json") EvLuckPulse H)))).
Defined.

Lemma records_well_formed_witness :
  let evs := [EvSetThreads 2; EvToggleScan 0 (sample_io 1)] in
  (0 <= 1 # 2 /\ clock_ok (run no_parse initial_runtime evs) = true) /\
  nonincreasing
    (map timestamp (wallets (app (run no_parse initial_runtime evs)))) = true.
Proof.
  intros evs.
  assert (H1 : 0 <= 1 # 2) by (unfold Qle; simpl; lia).
  assert (H2 : clock_ok (run no_parse initial_runtime evs) = true)
    by (vm_compute; reflexivity).
  split; [exact (conj H1 H2)|].
  exact (proj2 (records_well_formed no_parse evs (mkRenderScope 0 None 2)
                  initial_state sample_wallet (1 # 2) initial_state None
                  "3b241101-e2bb-4255-8caf-4136c566a962" 2 H1 H2)).
Defined.

(** ** A scenario of the specification, run on the model

    One round of two wallets with a connected provider: the first has the
    address of a watch target (in another letter case) and its lookup settles
    with 5 ether, the second is unrelated.  The discoveries list gains the
    watch target alone, the ordinary list the other wallet alone. *)

Example watch_target_scenario :
  let target := mkHDNodeWallet "0xAB5801A7D12705464D12F4019153033620769D11"
                  "0x00" None in
  let gen := fun i => match i with
                      | O => mkWalletIO target (1 # 2) Rejected "first" 10
                      | _ => sample_io 10 i
                      end in
  let rt := run no_parse initial_runtime
              [EvNode (Fulfilled mainnet_poll) 42; EvSetThreads 2;
               EvToggleScan 5 gen;
               EvBalance 0 (Fulfilled 5000000000000000000%N) "first" 12] in
  map balance (discovered (app rt)) = ["5.0"] /\
  map address (discovered (app rt)) = ["0xAB5801A7D12705464D12F4019153033620769D11"] /\
  map balance (wallets (app rt)) = ["0.00"] /\
  map address (wallets (app rt)) = [wallet_address sample_wallet] /\
  quantumCalibration (app rt) = 0 /\ attemptsRef (app rt) = 2%nat.
Proof. vm_compute. repeat split. Qed.

(** * More of the component *)

(** ** Every task, by handler *)

Section TaskInduction.

Variable JSON_parse : string -> option SecurityReport.
Variable V : Q -> Prop.
Variable W : WalletIO -> Prop.
Variable R : Runtime -> Runtime -> Prop.

Hypothesis T_refl : forall rt, R rt rt.
Hypothesis T_trans : forall a b c, R a b -> R b c -> R a c.
Hypothesis T_spawn :
  forall round scope io rt, W io -> R rt (spawn round scope io rt).
Hypothesis T_resume :
  forall k round scope loc outcome uuid now rt,
    nth_error (suspended rt) k = Some (round, scope, loc) ->
    R rt (finish scope loc (Some outcome) uuid now
            (with_suspended (remove_nth k (suspended rt)) rt)).
Hypothesis T_settled : forall scope rt, R rt (round_settled scope rt).
Hypothesis T_next_handle : forall n rt, R rt (with_next_handle n rt).
Hypothesis T_timers : forall l rt, R rt (with_timers l rt).
Hypothesis T_scanning : forall b rt, R rt (with_app (set_scanning b (app rt)) rt).
Hypothesis T_observe : forall t rt, R rt (observe t rt).
Hypothesis T_request : forall rt, R rt (request_report rt).
Hypothesis T_tick :
  forall random rt, V random -> R rt (with_app (tick (app rt) random) rt).
Hypothesis T_pulse : forall rt, R rt (triggerLuckPulse rt).
Hypothesis T_luck_timeout : forall rt, R rt (luck_timeout rt).
Hypothesis T_node :
  forall outcome elapsed rt,
    R rt (with_app (checkNode (app rt) default_rpc outcome elapsed) rt).
Hypothesis T_report : forall response rt, R rt (report_settles JSON_parse response rt).
Hypothesis T_threads : forall n rt, R rt (with_app (set_threads n (app rt)) rt).
Hypothesis T_alert :
  forall rt, R rt (with_app (set_showCollisionAlert false (app rt)) rt).
Hypothesis T_scope : forall s rt, R rt (with_callback_scope s rt).

Lemma T_run_batch round scope gen count i rt :
  (forall j, W (gen j)) -> R rt (run_batch round scope gen count i rt).
Proof.
  intros Hg. revert i rt. induction count as [|count IH]; intros i rt; simpl.
  - apply T_refl.
  - eapply T_trans; [apply T_spawn, Hg | apply IH].
Qed.

Lemma T_await_round round scope rt : R rt (await_round round scope rt).
Proof.
  unfold await_round. destruct (round_pending round rt);
    [apply T_refl | apply T_settled].
Qed.

Lemma T_startScanLoop scope gen rt :
  (forall j, W (gen j)) -> R rt (startScanLoop scope gen rt).
Proof.
  intros Hg. unfold startScanLoop.
  destruct (negb (isScanningRef (app rt))); [apply T_refl|].
  eapply T_trans; [|apply T_await_round].
  eapply T_trans; [apply T_next_handle | apply T_run_batch, Hg].
Qed.

Lemma T_handle ev rt : event_ok V W ev -> R rt (handle JSON_parse ev rt).
Proof.
  intros Hv. destruct ev; cbn [handle event_ok] in *.
  - unfold toggleScan. destruct (isScanning (app rt)).
    + eapply T_trans; [apply (T_scanning false)|].
      unfold clearTimeout.
      destruct (scanLoopRef (app (with_app (set_scanning false (app rt)) rt)));
        [apply T_timers | apply T_refl].
    + eapply T_trans; [apply (T_scanning true)|].
      eapply T_trans; [apply (T_observe now)|].
      eapply T_trans; [apply T_startScanLoop, Hv | apply T_request].
  - unfold fire_timer. destruct (timers rt) as [|[h scope] rest]; [apply T_refl|].
    eapply T_trans; [apply (T_timers rest) | apply T_startScanLoop, Hv].
  - unfold resume.
    destruct (nth_error (suspended rt) k) as [[[round scope] loc]|] eqn:E;
      [|apply T_refl].
    eapply T_trans; [apply (T_resume k round scope loc outcome uuid now rt E)|].
    apply T_await_round.
  - apply T_tick, Hv.
  - apply T_pulse.
  - apply T_luck_timeout.
  - apply T_node.
  - apply T_report.
  - destruct ((1 <=? n)%nat && (n <=? 512)%nat); [apply T_threads | apply T_refl].
  - apply T_alert.
Qed.

Lemma T_step ev rt : event_ok V W ev -> R rt (step JSON_parse rt ev).
Proof.
  intros Hv. unfold step. eapply T_trans; [apply T_handle, Hv|].
  unfold rerender.
  match goal with |- context [if ?c then _ else _] => destruct c end;
    [apply T_refl | apply T_scope].
Qed.

Lemma T_run evs rt : Forall (event_ok V W) evs -> R rt (run JSON_parse rt evs).
Proof.
  intros Hv. revert rt. induction Hv as [|ev evs Hev _ IH]; intros rt; simpl.
  - apply T_refl.
  - eapply T_trans; [apply T_step, Hev | apply IH].
Qed.

End TaskInduction.

(** The outcomes of the rest of a call, and of a whole member of a batch,
    with the state they leave. *)

Lemma finish_cases scope loc lookup uuid now rt :
  let st := app rt in
  let rt' := finish scope loc lookup uuid now rt in
  suspended rt' = suspended rt /\ luck_timeouts rt' = luck_timeouts rt /\
  exists e,
    e = snd (processWallet_end scope st loc lookup uuid now) /\
    ((gt0 (parseFloat (balance e)) || l_isTargetMatch loc = true /\
      app rt' = set_attemptsRef (attemptsRef st + 1) (record_discovery e st))
     \/
     (gt0 (parseFloat (balance e)) || l_isTargetMatch loc = false /\
      app rt' = set_attemptsRef (attemptsRef st + 1) (record_sighting e st))).
Proof.
  unfold finish, processWallet_end.
  set (e := mkWalletEntry _ _ _ _ _ _ _).
  cbn [balance snd].
  destruct (gt0 (parseFloat (settle_balance (l_balance loc) lookup)) || l_isTargetMatch loc)
    eqn:C.
  - cbn [discovered record_discovery set_attemptsRef List.length].
    assert ((List.length (discovered (app rt)) <? S (List.length (discovered (app rt))))%nat = true)
      as -> by (apply Nat.ltb_lt; lia).
    cbn. repeat split. exists e. split; [reflexivity|]. left.
    unfold e at 1. cbn [balance]. now rewrite C.
  - cbn [discovered record_sighting set_wallets set_attemptsRef].
    rewrite Nat.ltb_irrefl.
    cbn. repeat split. exists e. split; [reflexivity|]. right.
    unfold e at 1. cbn [balance]. now rewrite C.
Qed.

Lemma record_discovery_lock e b st :
  record_discovery e (set_discoveryLockRef b st) = record_discovery e st.
Proof. reflexivity. Qed.

Lemma spawn_cases round scope io rt :
  random_ok io ->
  let st := app rt in
  let rt' := spawn round scope io rt in
  luck_timeouts rt' = luck_timeouts rt /\
  ((exists loc,
      suspended rt' = (suspended rt ++ [(round, scope, loc)])%list /\
      worth_a_lookup loc /\
      app rt' = set_discoveryLockRef (discoveryLockRef st || l_forcedHit loc) st /\
      (l_forcedHit loc = true -> discoveryLockRef st = false))
   \/
   (suspended rt' = suspended rt /\
    exists e,
      app rt' = set_attemptsRef (attemptsRef st + 1) (record_discovery e st))
   \/
   (suspended rt' = suspended rt /\
    exists e,
      balance e = "0.00" /\
      app rt' = set_attemptsRef (attemptsRef st + 1) (record_sighting e st))).
Proof.
  intros Hr st rt'. unfold rt', spawn, enter, processWallet_begin. fold st.
  destruct (Qle_bool 100 (scope_quantumCalibration scope) && negb (discoveryLockRef st))
    eqn:F.
  - (* forced hit *)
    apply andb_true_iff in F as [_ L]. apply negb_true_iff in L.
    cbn [l_forcedHit providerRef set_discoveryLockRef].
    rewrite orb_true_r.
    destruct (providerRef st) eqn:P.
    + split; [reflexivity|]. left. eexists. split; [reflexivity|].
      split; [|split].
      * right. split; [reflexivity|]. cbn [l_balance].
        apply synthetic_balance_positive, Hr.
      * cbn [app note with_app with_suspended l_forcedHit]. now rewrite orb_true_r.
      * intros _. exact L.
    + set (rt1 := note ForcedHit (with_app (set_discoveryLockRef true st) rt)).
      destruct (finish_cases scope (mkLocals (io_wallet io)
                  (synthetic_balance (io_random io)) true (isTargetMatch (io_wallet io)))
                  None (io_uuid io) (io_now io) rt1)
        as (Hs & Hl & e & He & [(_ & Ha) | (C & _)]).
      * split; [exact Hl|]. right. left. split; [exact Hs|]. exists e.
        rewrite Ha. reflexivity.
      * exfalso. rewrite He in C. cbn [processWallet_end snd balance settle_balance l_balance] in C.
        rewrite (synthetic_balance_positive _ Hr) in C. discriminate.
  - (* not forced *)
    cbn [l_forcedHit]. rewrite orb_false_r.
    destruct (providerRef st) eqn:P; [destruct (isTargetMatch (io_wallet io)) eqn:T|].
    + split; [reflexivity|]. left. eexists. split; [reflexivity|].
      split; [|split].
      * left. reflexivity.
      * cbn [app with_app with_suspended l_forcedHit]. rewrite orb_false_r.
        destruct st; reflexivity.
      * discriminate.
    + destruct (finish_cases scope (mkLocals (io_wallet io) "0.00" false false)
                  None (io_uuid io) (io_now io) (with_app st rt))
        as (Hs & Hl & e & He & [(_ & Ha) | (_ & Ha)]).
      * split; [exact Hl|]. right. left. split; [exact Hs|]. exists e. exact Ha.
      * split; [exact Hl|]. right. right. split; [exact Hs|]. exists e.
        split; [|exact Ha]. rewrite He. reflexivity.
    + destruct (finish_cases scope (mkLocals (io_wallet io) "0.00" false
                  (isTargetMatch (io_wallet io)))
                  None (io_uuid io) (io_now io) (with_app st rt))
        as (Hs & Hl & e & He & [(_ & Ha) | (_ & Ha)]).
      * split; [exact Hl|]. right. left. split; [exact Hs|]. exists e. exact Ha.
      * split; [exact Hl|]. right. right. split; [exact Hs|]. exists e.
        split; [|exact Ha]. rewrite He. reflexivity.
Qed.

(** A lookup issued for a watch target or a forced hit ends in a discovery. *)
Lemma resume_cases scope loc outcome uuid now rt :
  worth_a_lookup loc ->
  let st := app rt in
  let rt' := finish scope loc (Some outcome) uuid now rt in
  suspended rt' = suspended rt /\ luck_timeouts rt' = luck_timeouts rt /\
  exists e,
    timestamp e = now /\
    app rt' = set_attemptsRef (attemptsRef st + 1) (record_discovery e st).
Proof.
  intros Hw st rt'.
  destruct (finish_cases scope loc (Some outcome) uuid now rt)
    as (Hs & Hl & e & He & [(_ & Ha) | (C & _)]).
  - split; [exact Hs|]. split; [exact Hl|]. exists e. split; [|exact Ha].
    rewrite He. reflexivity.
  - exfalso. rewrite He in C. cbn [processWallet_end snd balance] in C.
    apply orb_false_iff in C as [Cp Ct].
    destruct Hw as [Ht | [_ Hp]]; [congruence|].
    rewrite (settle_balance_positive _ (Some outcome) Hp) in Cp. discriminate.
Qed.

Lemma finish_app scope loc lookup uuid now rt :
  exists e,
    timestamp e = now /\
    (app (finish scope loc lookup uuid now rt)
     = set_attemptsRef (attemptsRef (app rt) + 1) (record_discovery e (app rt))
     \/
     app (finish scope loc lookup uuid now rt)
     = set_attemptsRef (attemptsRef (app rt) + 1) (record_sighting e (app rt))).
Proof.
  destruct (finish_cases scope loc lookup uuid now rt)
    as (_ & _ & e & He & [(_ & Ha) | (_ & Ha)]);
    exists e; (split; [rewrite He; reflexivity|]); [left | right]; exact Ha.
Qed.

Lemma finish_desk scope loc lookup uuid now rt :
  let rt' := finish scope loc lookup uuid now rt in
  suspended rt' = suspended rt /\ timers rt' = timers rt /\
  luck_timeouts rt' = luck_timeouts rt /\ next_handle rt' = next_handle rt.
Proof.
  unfold finish. destruct (processWallet_end _ _ _ _ _ _).
  match goal with |- context [if ?c then _ else _] => destruct c end;
    repeat split.
Qed.

(** A member of a batch leaves the state as it was but for the lock, or
    records a discovery, or records a sighting. *)
Lemma spawn_app round scope io rt :
  exists b,
    let st1 := set_discoveryLockRef b (app rt) in
    app (spawn round scope io rt) = st1 \/
    exists e,
      app (spawn round scope io rt)
      = set_attemptsRef (attemptsRef st1 + 1) (record_discovery e st1) \/
      app (spawn round scope io rt)
      = set_attemptsRef (attemptsRef st1 + 1) (record_sighting e st1).
Proof.
  unfold spawn, enter, processWallet_begin.
  destruct (Qle_bool 100 (scope_quantumCalibration scope) && negb (discoveryLockRef (app rt)));
    [exists true | exists (discoveryLockRef (app rt))];
    cbv zeta; cbn [l_forcedHit];
    match goal with
    | |- context [match ?p with Some _ => _ | None => false end] => destruct p
    end;
    try match goal with
    | |- context [if ?c || ?d then _ else _] => destruct (c || d)
    end;
    try (left; cbn [app with_app with_suspended note];
         try reflexivity; destruct (app rt); reflexivity);
    right;
    match goal with
    | |- context [finish ?s ?l ?k ?u ?n ?r] =>
        destruct (finish_app s l k u n r) as (e & _ & [Ha | Ha]);
        exists e; [left | right]; rewrite Ha
    end;
    cbn [app with_app note]; try reflexivity;
    destruct (app rt); reflexivity.
Qed.

Lemma spawn_desk round scope io rt :
  let rt' := spawn round scope io rt in
  timers rt' = timers rt /\ luck_timeouts rt' = luck_timeouts rt /\
  next_handle rt' = next_handle rt.
Proof.
  unfold spawn, enter.
  destruct (processWallet_begin _ _ _ _) as [[st1 loc] lookup].
  destruct (l_forcedHit loc); destruct lookup; cbv zeta;
    try (repeat split; fail);
    match goal with
    | |- context [finish ?s ?l ?k ?u ?n ?r] =>
        destruct (finish_desk s l k u n r) as (_ & Ht & Hl & Hn);
        rewrite Ht, Hl, Hn
    end; repeat split.
Qed.

(** A property of the component state kept by each elementary update is
    kept by every task. *)
Section StateInvariant.

Variable JSON_parse : string -> option SecurityReport.
Variable P : AppState -> Prop.

Hypothesis A_lock : forall b st, P st -> P (set_discoveryLockRef b st).
Hypothesis A_discovery :
  forall e st, P st -> P (set_attemptsRef (attemptsRef st + 1) (record_discovery e st)).
Hypothesis A_sighting :
  forall e st, P st -> P (set_attemptsRef (attemptsRef st + 1) (record_sighting e st)).
Hypothesis A_scanning : forall b st, P st -> P (set_scanning b st).
Hypothesis A_scanLoopRef : forall h st, P st -> P (set_scanLoopRef h st).
Hypothesis A_calibration : forall q st, P st -> P (set_quantumCalibration q st).
Hypothesis A_luck : forall b st, P st -> P (set_luckActive b st).
Hypothesis A_node :
  forall outcome elapsed st, P st -> P (checkNode st default_rpc outcome elapsed).
Hypothesis A_report : forall r st, P st -> P (set_probabilityData r st).
Hypothesis A_threads : forall n st, P st -> P (set_threads n st).
Hypothesis A_alert : forall st, P st -> P (set_showCollisionAlert false st).

Lemma state_invariant_run evs rt :
  P (app rt) -> P (app (run JSON_parse rt evs)).
Proof.
  apply (T_run JSON_parse (fun _ => True) (fun _ => True)
           (fun a b => P (app a) -> P (app b))); try (intros; assumption).
  - auto.
  - intros round scope io a _ H.
    destruct (spawn_app round scope io a) as (b & [E | (e & [E | E])]);
      rewrite E; auto.
  - intros k round scope loc outcome uuid now a _ H.
    destruct (finish_app scope loc (Some outcome) uuid now
                (with_suspended (remove_nth k (suspended a)) a))
      as (e & _ & [E | E]); rewrite E; cbn [app with_suspended]; auto.
  - intros scope a H. unfold round_settled.
    destruct (isScanningRef (app a)); cbn [app with_app]; auto.
  - intros b a H. cbn [app with_app]. auto.
  - intros random a _ H. cbn [app with_app]. unfold tick.
    destruct (isScanning (app a)); auto.
  - intros a H. unfold triggerLuckPulse.
    destruct (isScanning (app a)); cbn; auto.
  - intros a H. unfold luck_timeout. destruct (luck_timeouts a); cbn; auto.
  - intros outcome elapsed a H. cbn [app with_app]. auto.
  - intros response a H. unfold report_settles.
    destruct (reports_pending a); [assumption|].
    cbn [app with_app with_reports]. unfold runAnalysis.
    destruct (auditWalletSetup JSON_parse response); auto.
  - intros n a H. cbn [app with_app]. auto.
  - intros a H. cbn [app with_app]. auto.
  - apply Forall_forall. intros ev _. destruct ev; cbn; auto.
Qed.

End StateInvariant.

(** ** Block explorer links *)

Lemma append_cancel_l a x y : a ++ x = a ++ y -> x = y.
Proof.
  induction a as [|c a IH]; simpl; intros H; [assumption|].
  injection H as H. now apply IH.
Qed.

Lemma explorer_domain_not_empty cid : explorer_domain cid <> "".
Proof.
  unfold explorer_domain.
  destruct (chains_get cid chains) as [[|c d]|]; discriminate.
Qed.

(** X1. [getExplorerUrl] gives no link exactly when the chain id is unknown
    or 0.  Otherwise the link is ["https://"], a non-empty domain,
    ["/address/"] and the address as it is, so that two addresses with the
    same link are the same address; and each of the six configured networks
    has a domain of its own in the table, not the fallback. *)
Theorem explorer_links ns addr addr' :
  (getExplorerUrl ns addr = None <->
     chainId ns = None \/ chainId ns = Some 0%Z) /\
  (forall url, getExplorerUrl ns addr = Some url ->
     exists domain, domain <> "" /\
       url = "https://" ++ domain ++ "/address/" ++ addr) /\
  (getExplorerUrl ns addr <> None ->
   getExplorerUrl ns addr = getExplorerUrl ns addr' -> addr = addr') /\
  (forall n, In n NETWORKS ->
     explorer_domain (net_chainId n) <> "blockscan.com" /\
     getExplorerUrl (mkNodeStatus true None None (net_rpc n)
                       (Some (net_chainId n)) None) addr <> None).
Proof.
  unfold getExplorerUrl. split; [|split; [|split]].
  - destruct (chainId ns) as [[|p|p]|]; split; intros H;
      try discriminate; try reflexivity; auto;
      destruct H as [H | H]; discriminate.
  - intros url H. exists (explorer_domain
                            match chainId ns with Some c => c | None => 0%Z end).
    split; [apply explorer_domain_not_empty|].
    destruct (chainId ns) as [[|p|p]|]; try discriminate; now injection H as <-.
  - intros Hn H.
    destruct (chainId ns) as [[|p|p]|]; try (exfalso; apply Hn; reflexivity);
      injection H as H;
      try (apply append_cancel_l in H; injection H as H); exact H.
  - intros n Hn. simpl in Hn.
    repeat (destruct Hn as [<- | Hn]; [split; discriminate|]). destruct Hn.
Qed.

(** ** Watch-list balances *)

Lemma record_get_set_same {A} k (v : A) r : record_get k (record_set k v r) = Some v.
Proof.
  induction r as [|[k' v'] r IH]; simpl.
  - now rewrite String.eqb_refl.
  - destruct (String.eqb k' k) eqn:E; simpl; rewrite E; [reflexivity | exact IH].
Qed.

Lemma record_get_set_other {A} k k' (v : A) r :
  k <> k' -> record_get k' (record_set k v r) = record_get k' r.
Proof.
  intros Hk. induction r as [|[k0 v0] r IH]; simpl.
  - destruct (String.eqb_spec k k'); [congruence | reflexivity].
  - destruct (String.eqb_spec k0 k) as [->|Hk0]; simpl.
    + destruct (String.eqb_spec k k'); [congruence | reflexivity].
    + destruct (String.eqb k0 k'); [reflexivity | exact IH].
Qed.

Lemma formatEther_not_empty wei : formatEther wei <> "".
Proof.
  destruct (formatUnits_shape wei 18) as (a & b & E & Ha & _); [discriminate|].
  unfold formatEther. rewrite E. destruct a; [congruence | discriminate].
Qed.

(** What the fresh object holds for a key, given what it held before the
    targets of [settled] were written. *)
Lemma collect_get outcome settled acc k :
  (forall t t', In t settled -> In t' settled ->
                target_address t = k -> target_address t' = k ->
                outcome t = outcome t') ->
  record_get k
    (fold_left
       (fun balances target =>
          match outcome target with
          | Fulfilled bal => record_set (target_address target) (formatEther bal) balances
          | Rejected => balances
          end) settled acc)
  = match find (fun t => String.eqb (target_address t) k && is_fulfilled (outcome t))
               settled with
    | Some t => match outcome t with
                | Fulfilled bal => Some (formatEther bal)
                | Rejected => None
                end
    | None => record_get k acc
    end.
Proof.
  revert acc. induction settled as [|t settled IH]; intros acc Hsame.
  - reflexivity.
  - cbn [fold_left find]. rewrite IH by (intros; apply Hsame; simpl; auto).
    destruct (find (fun t0 => String.eqb (target_address t0) k
                              && is_fulfilled (outcome t0)) settled)
      as [t'|] eqn:F.
    + destruct (String.eqb (target_address t) k && is_fulfilled (outcome t)) eqn:C;
        [|reflexivity].
      apply find_some in F as [Hin F]. apply andb_true_iff in F as [F1 _].
      apply andb_true_iff in C as [C1 _].
      apply String.eqb_eq in F1, C1.
      rewrite (Hsame t t'); simpl; auto.
    + destruct (outcome t) as [bal|] eqn:O; cbn [is_fulfilled].
      * destruct (String.eqb_spec (target_address t) k) as [Ek|Ek]; cbn [andb].
        -- rewrite O, <- Ek. apply record_get_set_same.
        -- apply record_get_set_other, Ek.
      * rewrite andb_false_r. reflexivity.
Qed.

Lemma targets_distinct t t' :
  In t RICH_TARGETS -> In t' RICH_TARGETS ->
  target_address t = target_address t' -> t = t'.
Proof.
  simpl. intros H H'.
  repeat (destruct H as [<- | H]);
    repeat (destruct H' as [<- | H']); try reflexivity; try discriminate;
    try destruct H; try destruct H'.
Qed.

(** X2. [syncHvtBalances] is all or nothing.  Without a provider, or when one
    of the seven lookups is rejected, the stored balances are left as they
    were.  When all are fulfilled, in whatever order they settle, the stored
    balances are replaced: every watch target then shows its formatted
    balance, never the placeholder, and no key other than the address of a
    watch target is left. *)
Theorem watch_list_sync provider hvtBalances outcome settled :
  (forall t, In t RICH_TARGETS <-> In t settled) ->
  let synced := syncHvtBalances provider hvtBalances outcome settled in
  (provider = None -> synced = hvtBalances) /\
  (forall t, In t RICH_TARGETS -> outcome t = Rejected -> synced = hvtBalances) /\
  (provider <> None ->
   (forall t, In t RICH_TARGETS -> outcome t <> Rejected) ->
   (forall t, In t RICH_TARGETS ->
      exists bal, outcome t = Fulfilled bal /\
        sync_status synced t = formatEther bal /\
        sync_status synced t <> "VERIFYING...") /\
   (forall k, record_get k synced <> None ->
      exists t, In t RICH_TARGETS /\ target_address t = k)).
Proof.
  intros Hperm synced. unfold synced, syncHvtBalances. split; [|split].
  - intros ->. reflexivity.
  - intros t Ht Hr. destruct provider; [|reflexivity].
    assert (forallb (fun target => is_fulfilled (outcome target)) RICH_TARGETS = false)
      as ->; [|reflexivity].
    apply not_true_is_false. intros H. rewrite forallb_forall in H.
    specialize (H t Ht). rewrite Hr in H. discriminate.
  - intros Hp Hall. destruct provider; [clear Hp | congruence].
    assert (forallb (fun target => is_fulfilled (outcome target)) RICH_TARGETS = true)
      as ->.
    { apply forallb_forall. intros t Ht. specialize (Hall t Ht).
      destruct (outcome t); [reflexivity | congruence]. }
    assert (forall k,
              record_get k (collect_balances outcome settled)
              = match find (fun t => String.eqb (target_address t) k
                                     && is_fulfilled (outcome t)) settled with
                | Some t => match outcome t with
                            | Fulfilled bal => Some (formatEther bal)
                            | Rejected => None
                            end
                | None => None
                end) as Hget.
    { intros k. unfold collect_balances. apply collect_get.
      intros t t' Ht Ht' E E'. apply Hperm in Ht, Ht'.
      rewrite (targets_distinct t t' Ht Ht'); congruence. }
    split.
    + intros t Ht. specialize (Hall t Ht).
      destruct (outcome t) as [bal|] eqn:O; [clear Hall | congruence].
      exists bal. split; [reflexivity|].
      assert (record_get (target_address t) (collect_balances outcome settled)
              = Some (formatEther bal)) as G.
      { rewrite Hget.
        destruct (find _ settled) as [t0|] eqn:F.
        - apply find_some in F as [Hin F]. apply andb_true_iff in F as [F1 _].
          apply String.eqb_eq in F1. apply Hperm in Hin.
          rewrite (targets_distinct t0 t Hin Ht F1), O. reflexivity.
        - exfalso. pose proof (find_none _ _ F t (proj1 (Hperm t) Ht)) as N.
          cbn in N. rewrite String.eqb_refl, O in N. discriminate. }
      unfold sync_status. rewrite G.
      pose proof (formatEther_not_empty bal) as Hne.
      pose proof (is_decimal_formatEther bal) as Hd.
      destruct (formatEther bal) eqn:E; [congruence|].
      split; [reflexivity|]. intros V. rewrite V in Hd. discriminate.
    + intros k Hk. rewrite Hget in Hk.
      destruct (find _ settled) as [t0|] eqn:F; [|congruence].
      apply find_some in F as [Hin F]. apply andb_true_iff in F as [F1 _].
      apply String.eqb_eq in F1. exists t0. split; [apply Hperm, Hin | exact F1].
Qed.

(** ** Reveal flags *)

(** X3. [toggleReveal] flips the shown state of the one wallet and of no
    other, whether or not the wallet had an entry before; toggling the same
    wallet twice brings every wallet back to the state it was shown in. *)
Theorem reveal_toggle revealMap wid other :
  isRevealed (toggleReveal wid revealMap) wid = negb (isRevealed revealMap wid) /\
  (other <> wid ->
   isRevealed (toggleReveal wid revealMap) other = isRevealed revealMap other) /\
  isRevealed (toggleReveal wid (toggleReveal wid revealMap)) other
  = isRevealed revealMap other /\
  isRevealed [] other = false.
Proof.
  assert (forall r, isRevealed (toggleReveal wid r) wid = negb (isRevealed r wid)) as Hsame.
  { intros r. unfold isRevealed at 1, toggleReveal.
    now rewrite record_get_set_same. }
  assert (forall r, other <> wid ->
            isRevealed (toggleReveal wid r) other = isRevealed r other) as Hother.
  { intros r Hne. unfold toggleReveal, isRevealed.
    rewrite record_get_set_other by congruence. reflexivity. }
  repeat split.
  - apply Hsame.
  - apply Hother.
  - destruct (string_dec other wid) as [->|Hne].
    + now rewrite !Hsame, negb_involutive.
    + now rewrite !Hother.
Qed.

(** ** The words of a recovery phrase *)

Lemma split_on_not_nil sep s : split_on sep s <> [].
Proof.
  destruct s as [|c r]; simpl; [discriminate|].
  destruct (Ascii.eqb c sep); [discriminate|].
  destruct (split_on sep r); discriminate.
Qed.

Lemma join_with_cons sep w rest :
  rest <> [] -> join_with sep (w :: rest) = w ++ sep ++ join_with sep rest.
Proof. destruct rest; [congruence | reflexivity]. Qed.

Lemma join_split sep s : join_with (String sep "") (split_on sep s) = s.
Proof.
  induction s as [|c r IH]; [reflexivity|]. cbn [split_on].
  destruct (Ascii.eqb_spec c sep) as [->|Hc].
  - rewrite join_with_cons by apply split_on_not_nil. rewrite IH. reflexivity.
  - pose proof (split_on_not_nil sep r) as Hn.
    destruct (split_on sep r) as [|w ws]; [congruence|].
    destruct ws as [|w' ws'].
    + simpl in *. now rewrite IH.
    + rewrite join_with_cons by discriminate.
      rewrite join_with_cons in IH by discriminate.
      simpl. now rewrite <- IH.
Qed.

Lemma split_on_words sep s :
  List.length (split_on sep s) = S (count_char sep s) /\
  Forall (fun w => count_char sep w = O) (split_on sep s).
Proof.
  induction s as [|c r [IHl IHf]]; [split; [reflexivity | repeat constructor]|].
  cbn [split_on count_char].
  destruct (Ascii.eqb c sep) eqn:E.
  - split; [simpl; now rewrite IHl | constructor; [reflexivity | assumption]].
  - pose proof (split_on_not_nil sep r) as Hn.
    destruct (split_on sep r) as [|w ws]; [congruence|].
    split; [exact IHl|].
    inversion IHf as [|? ? Hw Hws]; subst.
    constructor; [|assumption]. cbn [count_char]. now rewrite E, Hw.
Qed.

(** X4. The words a wallet card shows are the recovery phrase cut at its
    spaces: joined again by single spaces they give back the phrase that the
    copy button copies, none of them holds a space, and their number is the
    number of spaces plus one (one cell for ["N/A"]).  The label of the word
    at index [idx] reads back as [idx + 1], so no two cells share a label, and
    it has two characters up to the 99th word. *)
Theorem phrase_words phrase idx idx' :
  let words := split_on " " phrase in
  join_with " " words = phrase /\
  Forall (fun w => count_char " " w = O) words /\
  List.length words = S (count_char " " phrase) /\
  split_on " " "N/A" = ["N/A"] /\
  digits_value (word_label idx) = N.of_nat (idx + 1) /\
  (word_label idx = word_label idx' -> idx = idx') /\
  ((idx < 99)%nat -> String.length (word_label idx) = 2%nat).
Proof.
  intros words. unfold words.
  destruct (split_on_words " " phrase) as [Hl Hf].
  assert (forall i, digits_value (word_label i) = N.of_nat (i + 1)) as Hv
    by (intros i; apply digits_value_pad).
  repeat split; try assumption.
  - apply (join_split " ").
  - apply Hv.
  - intros E. apply (f_equal digits_value) in E. rewrite !Hv in E. lia.
  - intros Hi. unfold word_label, pad_left.
    rewrite str_length_app, zeros_length.
    assert (String.length (string_of_N (N.of_nat (idx + 1))) <= 2)%nat; [|lia].
    do 99 (destruct idx as [|idx]; [vm_compute; lia|]). lia.
Qed.

(** ** Letter case of addresses *)

Lemma lower_char_idem c : lower_char (lower_char c) = lower_char c.
Proof. ascii_cases c. Qed.

Lemma toLowerCase_idem s : toLowerCase (toLowerCase s) = toLowerCase s.
Proof.
  induction s as [|c s IH]; simpl; [reflexivity|].
  now rewrite lower_char_idem, IH.
Qed.

(** X5. The watch-target test of [processWallet] does not depend on the
    letter case of the wallet address: two addresses with the same lower-case
    form are both matches or both not, and since the listed addresses are
    already in lower case (line 23) a wallet matches exactly when the
    lower-case form of its address is one of the seven listed strings. *)
Theorem watch_match_ignores_case wallet wallet' :
  (toLowerCase (wallet_address wallet) = toLowerCase (wallet_address wallet') ->
   isTargetMatch wallet = isTargetMatch wallet') /\
  isTargetMatch (mkHDNodeWallet (toLowerCase (wallet_address wallet))
                   (wallet_privateKey wallet) (wallet_mnemonic wallet))
  = isTargetMatch wallet /\
  (isTargetMatch wallet = true <->
   In (toLowerCase (wallet_address wallet)) (map target_address RICH_TARGETS)).
Proof.
  split; [|split].
  - intros E. unfold isTargetMatch. now rewrite E.
  - unfold isTargetMatch. cbn [wallet_address]. now rewrite toLowerCase_idem.
  - rewrite isTargetMatch_spec. unfold is_watch_target. rewrite in_map_iff.
    assert (forall t, In t RICH_TARGETS -> toLowerCase (target_address t) = target_address t)
      as Hnorm.
    { intros t Ht. simpl in Ht.
      repeat (destruct Ht as [<- | Ht]; [reflexivity|]). destruct Ht. }
    split; intros (t & H1 & H2); exists t.
    + split; [|assumption]. now rewrite <- (Hnorm t H1).
    + split; [assumption|]. now rewrite (Hnorm t H2).
Qed.

(** ** The gas price of a poll *)

(** X6. After a successful poll the status carries no gas price exactly when
    the fee data has none or has the price 0; a price that is shown is a
    decimal string that parses to a positive number. *)
Theorem gas_price_shown st url elapsed r :
  let ns := nodeStatus (checkNode st url (Fulfilled r) elapsed) in
  (gasPrice ns = None <->
     poll_gasPrice r = None \/ poll_gasPrice r = Some 0%N) /\
  (forall shown, gasPrice ns = Some shown ->
     is_decimal_string shown = true /\ gt0 (parseFloat shown) = true).
Proof.
  cbv zeta. cbn [checkNode nodeStatus set_nodeStatus gasPrice].
  unfold gas_price_label. split.
  - destruct (poll_gasPrice r) as [[|p]|]; split; intros H;
      try discriminate; try reflexivity; auto;
      destruct H as [H | H]; discriminate.
  - intros shown H. destruct (poll_gasPrice r) as [[|p]|]; try discriminate.
    destruct (formatUnits_shape (Npos p) 9) as (a & b & E & Ha & Hb & Da & Db & Hz);
      [discriminate|].
    rewrite E in H. injection H as H. subst shown. split.
    + now apply (is_decimal_string_decimal a b).
    + pose proof (gt0_parseFloat_decimal a b Ha Da Db) as G.
      rewrite Hz in G. exact G.
Qed.

(** ** The gauge read-out *)

Lemma toFixed_by_int x y f :
  0 <= x -> 0 <= y -> toFixed_int x f = toFixed_int y f -> toFixed x f = toFixed y f.
Proof.
  intros Hx Hy E. unfold toFixed.
  apply Qle_bool_iff in Hx, Hy. rewrite Hx, Hy. cbn [negb]. now rewrite E.
Qed.

Lemma toFixed_int_1000 x :
  0 <= x -> x <= 100 -> (toFixed_int x 1 = 1000%N <-> 9995 # 100 <= x).
Proof.
  intros H0 H1. unfold toFixed_int.
  change (inject_Z (10 ^ Z.of_nat 1)) with (10 # 1).
  set (y := x * (10 # 1) + (1 # 2)).
  pose proof (Qfloor_le y) as Hle.
  split.
  - intros E.
    assert (Qfloor y = 1000%Z) as Ef by lia.
    rewrite Ef in Hle. change (inject_Z 1000) with (1000 # 1) in Hle.
    unfold y in Hle. lra.
  - intros Hx.
    assert (1000 <= Qfloor y)%Z.
    { rewrite <- (Qfloor_Z 1000). apply Qfloor_resp_le.
      change (inject_Z 1000) with (1000 # 1). unfold y. lra. }
    assert (Qfloor y < 1001)%Z.
    { rewrite Zlt_Qlt. apply Qle_lt_trans with y; [exact Hle|].
      change (inject_Z 1001) with (1001 # 1). unfold y. lra. }
    lia.
Qed.

(** X7. With the calibration value within 0 and 100, the figure of the gauge
    is a decimal string with one fractional digit; it reads ["100.0"] exactly
    from 99.95 on, while the caption turns to ["ALIGNMENT PEAK"] only at 100:
    between 99.95 and 100 the gauge shows 100.0 under the caption of a gauge
    that is still rising. *)
Theorem gauge_read_out calibration :
  0 <= calibration -> calibration <= 100 ->
  has_decimals 1 (gauge_text calibration) = true /\
  (gauge_text calibration = "100.0" <-> 9995 # 100 <= calibration) /\
  (gauge_caption calibration = "ALIGNMENT PEAK" <-> 100 <= calibration) /\
  (gauge_caption calibration = "ALIGNMENT PEAK" -> gauge_text calibration = "100.0").
Proof.
  intros H0 H1. unfold gauge_text.
  destruct (toFixed_shape calibration 1 H0) as (a & b & E & Ha & Da & Db & Hl & Hv);
    [discriminate|].
  assert (toFixed calibration 1 = "100.0" <-> 9995 # 100 <= calibration) as Htext.
  { rewrite <- (toFixed_int_1000 calibration H0 H1). split.
    - intros T. rewrite <- Hv. rewrite E in T.
      apply (f_equal span_digits) in T.
      rewrite (span_digits_app a ("." ++ b) Da) in T by reflexivity.
      cbn in T. inversion T. reflexivity.
    - intros I.
      rewrite (toFixed_by_int calibration 100 1 H0); [reflexivity | discriminate |].
      rewrite I. reflexivity. }
  assert (gauge_caption calibration = "ALIGNMENT PEAK" <-> 100 <= calibration) as Hcap.
  { unfold gauge_caption. rewrite <- Qle_bool_iff.
    destruct (Qle_bool 100 calibration); split; intros H;
      try reflexivity; discriminate. }
  split; [|split; [|split]]; try assumption.
  - rewrite E. now apply has_decimals_decimal.
  - intros C. apply Htext. apply Hcap in C. lra.
Qed.

(** ** The counter, the two lists and the alert *)

Lemma ledger_run JSON_parse evs :
  ledger_ok (app (run JSON_parse initial_runtime evs)).
Proof.
  apply state_invariant_run; unfold ledger_ok;
    try (intros; cbn -[Nat.min]; assumption).
  - intros e st (H1 & H2 & H3 & H4).
    cbn [record_discovery set_attemptsRef wallets discovered attemptsRef
         lastDiscovery showCollisionAlert List.length hd_error].
    repeat split; try lia.
    discriminate.
  - intros e st (H1 & H2 & H3 & H4). cbn [record_sighting set_wallets set_attemptsRef
      wallets discovered attemptsRef lastDiscovery showCollisionAlert].
    rewrite length_firstn. cbn [List.length]. repeat split; try assumption; lia.
  - intros outcome elapsed st H. destruct outcome; cbn -[Nat.min]; assumption.
  - intros st (H1 & H2 & H3 & H4). cbn -[Nat.min].
    repeat split; try assumption; try discriminate.
  - cbn. repeat split; try lia; try discriminate.
Qed.

(** X8. In every state reached from the initial one, the ordinary list holds
    as many entries as there were processed wallets that are not discoveries,
    up to 15; so the placeholder of the result area is shown exactly as long
    as no wallet has been processed. *)
Theorem record_count JSON_parse evs :
  let st := app (run JSON_parse initial_runtime evs) in
  (List.length (discovered st) <= attemptsRef st)%nat /\
  List.length (wallets st)
  = Nat.min 15 (attemptsRef st - List.length (discovered st)) /\
  standby_shown st = Nat.eqb (attemptsRef st) 0.
Proof.
  intros st. destruct (ledger_run JSON_parse evs) as (H1 & H2 & _). fold st in H1, H2.
  repeat split; try assumption.
  unfold standby_shown. rewrite H2.
  destruct (Nat.eqb_spec (attemptsRef st) 0) as [E|E].
  - rewrite E in *. assert (List.length (discovered st) = 0)%nat as -> by lia.
    reflexivity.
  - destruct (Nat.eqb_spec (List.length (discovered st)) 0) as [D|D].
    + rewrite D, Nat.sub_0_r, andb_true_r. apply Nat.eqb_neq. lia.
    + apply andb_false_r.
Qed.

(** X9. In every state reached from the initial one, whenever the alert flag
    is set the discoveries list is not empty and the modal shows the balance
    and the address of its newest entry. *)
Theorem alert_shows_newest JSON_parse evs :
  showCollisionAlert (app (run JSON_parse initial_runtime evs)) = true ->
  let st := app (run JSON_parse initial_runtime evs) in
  exists e older,
    discovered st = e :: older /\
    lastDiscovery st = Some e /\
    alert_modal st = Some (balance e, address e).
Proof.
  intros Hs st. destruct (ledger_run JSON_parse evs) as (_ & _ & H3 & H4).
  fold st in H3, H4, Hs. specialize (H4 Hs).
  destruct (discovered st) as [|e older] eqn:D; [congruence|].
  exists e, older. cbn in H3. repeat split; try assumption.
  unfold alert_modal. now rewrite Hs, H3.
Qed.

Lemma grows_refl rt : grows rt rt.
Proof. split; [exists []; reflexivity | lia]. Qed.

Lemma grows_trans a b c : grows a b -> grows b c -> grows a c.
Proof.
  intros [(n1 & E1) L1] [(n2 & E2) L2]. split; [|lia].
  exists (n2 ++ n1)%list. now rewrite E2, E1, app_assoc.
Qed.

Lemma grows_step JSON_parse ev rt : grows rt (step JSON_parse rt ev).
Proof.
  assert (forall a b, app b = app a -> grows a b) as Hsame.
  { intros a b E. split; rewrite E; [exists []; reflexivity | lia]. }
  apply (T_step JSON_parse (fun _ => True) (fun _ => True) grows);
    try (intros; apply Hsame; reflexivity).
  - apply grows_trans.
  - intros round scope io a _.
    destruct (spawn_app round scope io a) as (b & [E | (e & [E | E])]);
      split; rewrite E; cbn; try lia;
      [exists [] | exists [e] | exists []]; reflexivity.
  - intros k round scope loc outcome uuid now a _.
    destruct (finish_app scope loc (Some outcome) uuid now
                (with_suspended (remove_nth k (suspended a)) a))
      as (e & _ & [E | E]); split; rewrite E; cbn; try lia;
      [exists [e] | exists []]; reflexivity.
  - intros scope a. unfold round_settled.
    destruct (isScanningRef (app a)); split; cbn; try lia; exists []; reflexivity.
  - intros b a. split; cbn; try lia; exists []; reflexivity.
  - intros random a _. cbn [app with_app]. unfold tick.
    destruct (isScanning (app a)); split; cbn; try lia; exists []; reflexivity.
  - intros a. unfold triggerLuckPulse.
    destruct (isScanning (app a)); split; cbn; try lia; exists []; reflexivity.
  - intros a. unfold luck_timeout.
    destruct (luck_timeouts a); split; cbn; try lia; exists []; reflexivity.
  - intros outcome elapsed a. destruct outcome; split; cbn; try lia;
      exists []; reflexivity.
  - intros response a. unfold report_settles.
    destruct (reports_pending a); [apply grows_refl|].
    cbn [app with_app with_reports]. unfold runAnalysis.
    destruct (auditWalletSetup JSON_parse response); split; cbn; try lia;
      exists []; reflexivity.
  - intros n a. split; cbn; try lia; exists []; reflexivity.
  - intros a. split; cbn; try lia; exists []; reflexivity.
  - destruct ev; cbn; auto.
Qed.

(** X10. Nothing is ever taken out of the discoveries list or moved within
    it: whatever tasks run, from any state, the list afterwards is the list
    before with the new discoveries in front; and the attempt counter never
    goes back. *)
Theorem discoveries_kept JSON_parse rt evs :
  let rt' := run JSON_parse rt evs in
  (exists newer,
     discovered (app rt') = (newer ++ discovered (app rt))%list) /\
  (attemptsRef (app rt) <= attemptsRef (app rt'))%nat.
Proof.
  revert rt. induction evs as [|ev evs IH]; intros rt.
  - apply grows_refl.
  - cbn [run fold_left]. eapply grows_trans; [apply grows_step | apply IH].
Qed.

(** ** Lookups in flight *)

Lemma In_remove_nth {A} k (l : list A) x : In x (remove_nth k l) -> In x l.
Proof.
  revert l. induction k as [|k IH]; intros [|y l] H; simpl in *; try tauto.
  destruct H as [H | H]; [now left | right; now apply IH].
Qed.

Lemma pipeline_same a b :
  wallets (app b) = wallets (app a) -> suspended b = suspended a ->
  discoveryLockRef (app b) = discoveryLockRef (app a) ->
  pipeline_ok a -> pipeline_ok b.
Proof. unfold pipeline_ok. intros -> -> ->. auto. Qed.

Lemma pipeline_step JSON_parse ev rt :
  event_ok (fun _ => True) random_ok ev ->
  pipeline_ok rt -> pipeline_ok (step JSON_parse rt ev).
Proof.
  apply (T_step JSON_parse (fun _ => True) random_ok
           (fun a b => pipeline_ok a -> pipeline_ok b));
    try (intros;
         match goal with
         | H : pipeline_ok ?a |- _ =>
             apply (pipeline_same a); [reflexivity | reflexivity | reflexivity | exact H]
         end).
  - auto.
  - intros round scope io a Hr (Hw & Hs & Hl).
    destruct (spawn_cases round scope io a Hr)
      as (_ & [(loc & Es & Hloc & Ea & Hf) | [(Es & e & Ea) | (Es & e & Hb & Ea)]]);
      unfold pipeline_ok; rewrite Es, Ea.
    + cbn [set_discoveryLockRef wallets discoveryLockRef].
      split; [assumption|]. split.
      * intros s Hin. apply in_app_or in Hin as [Hin | [<- | []]]; [auto | exact Hloc].
      * intros L. destruct (l_forcedHit loc) eqn:F.
        -- exists (round, scope, loc). split; [|exact F].
           apply in_or_app. right. now left.
        -- rewrite orb_false_r in L. destruct (Hl L) as (s & Hin & Hsf).
           exists s. split; [apply in_or_app; now left | exact Hsf].
    + cbn. repeat split; try assumption. discriminate.
    + cbn [set_attemptsRef record_sighting set_wallets wallets discoveryLockRef].
      split; [|split; assumption].
      intros x Hx. apply In_firstn in Hx. destruct Hx as [<- | Hx]; auto.
  - intros k round scope loc outcome uuid now a E (Hw & Hs & Hl).
    assert (worth_a_lookup loc) as Hloc
      by (apply (Hs (round, scope, loc)), (nth_error_In _ _ E)).
    destruct (resume_cases scope loc outcome uuid now
                (with_suspended (remove_nth k (suspended a)) a) Hloc)
      as (Es & _ & e & _ & Ea).
    unfold pipeline_ok. rewrite Es, Ea. cbn. repeat split; try assumption.
    + intros s Hin. apply Hs, (In_remove_nth k), Hin.
    + discriminate.
  - intros scope a. apply pipeline_same; unfold round_settled;
      destruct (isScanningRef (app a)); reflexivity.
  - intros random a _. apply pipeline_same; cbn [app with_app suspended];
      unfold tick; destruct (isScanning (app a)); reflexivity.
  - intros a. apply pipeline_same; unfold triggerLuckPulse;
      destruct (isScanning (app a)); reflexivity.
  - intros a. apply pipeline_same; unfold luck_timeout;
      destruct (luck_timeouts a); reflexivity.
  - intros outcome elapsed a. apply pipeline_same; destruct outcome; reflexivity.
  - intros response a. apply pipeline_same; unfold report_settles;
      destruct (reports_pending a); try reflexivity;
      cbn [app with_app with_reports suspended]; unfold runAnalysis;
      destruct (auditWalletSetup JSON_parse response); reflexivity.
Qed.

Lemma pipeline_run JSON_parse evs rt :
  Forall (event_ok (fun _ => True) random_ok) evs ->
  pipeline_ok rt -> pipeline_ok (run JSON_parse rt evs).
Proof.
  intros Hv. revert rt. induction Hv as [|ev evs Hev _ IH]; intros rt H; simpl.
  - assumption.
  - apply IH, pipeline_step; assumption.
Qed.

Lemma initial_pipeline : pipeline_ok initial_runtime.
Proof. repeat split; try (intros ? []); discriminate. Qed.

(** X11. In every state reached from the initial one (with random numbers
    that are not negative), every entry of the ordinary list has the balance
    ["0.00"]: a record with any other balance is in the discoveries list. *)
Theorem ordinary_rows_show_zero JSON_parse evs e :
  Forall (event_ok (fun _ => True) random_ok) evs ->
  In e (wallets (app (run JSON_parse initial_runtime evs))) ->
  balance e = "0.00".
Proof.
  intros Hv Hin.
  destruct (pipeline_run JSON_parse evs initial_runtime Hv initial_pipeline)
    as (Hw & _). now apply Hw.
Qed.

Lemma await_round_app round scope rt :
  set_scanLoopRef (scanLoopRef (app rt)) (app (await_round round scope rt)) = app rt /\
  suspended (await_round round scope rt) = suspended rt.
Proof.
  unfold await_round, round_settled.
  destruct (round_pending round rt); [split; [destruct (app rt)|]; reflexivity|].
  destruct (isScanningRef (app rt)); (split; [destruct (app rt)|]; reflexivity).
Qed.

(** X12. In every state reached from the initial one (with random numbers
    that are not negative): while the one-shot lock is set, the balance lookup
    of a forced hit is in flight, so the lock cannot stay set with nothing
    left to clear it; and whichever lookup in flight settles, and however, its
    wallet is recorded as a discovery, never as an ordinary sighting, which
    sets the gauge to 0 and clears the lock. *)
Theorem lookup_ends_in_discovery JSON_parse evs k outcome uuid now :
  Forall (event_ok (fun _ => True) random_ok) evs ->
  (k < List.length (suspended (run JSON_parse initial_runtime evs)))%nat ->
  let rt := run JSON_parse initial_runtime evs in
  let rt' := step JSON_parse rt (EvBalance k outcome uuid now) in
  (discoveryLockRef (app rt) = true ->
   exists s, In s (suspended rt) /\ l_forcedHit (snd s) = true) /\
  (exists e, timestamp e = now /\
     discovered (app rt') = e :: discovered (app rt)) /\
  wallets (app rt') = wallets (app rt) /\
  quantumCalibration (app rt') = 0 /\
  discoveryLockRef (app rt') = false /\
  S (List.length (suspended rt')) = List.length (suspended rt).
Proof.
  intros Hv Hk rt rt'.
  destruct (pipeline_run JSON_parse evs initial_runtime Hv initial_pipeline)
    as (_ & Hs & Hl). fold rt in Hs, Hl.
  split; [exact Hl|].
  unfold rt', step. rewrite app_rerender.
  replace (suspended (rerender (handle JSON_parse (EvBalance k outcome uuid now) rt)))
    with (suspended (handle JSON_parse (EvBalance k outcome uuid now) rt))
    by (unfold rerender;
        match goal with |- context [if ?c then _ else _] => destruct c end;
        reflexivity).
  cbn [handle]. unfold resume.
  destruct (nth_error (suspended rt) k) as [[[round scope] loc]|] eqn:E;
    [|apply nth_error_None in E; fold rt in Hk; lia].
  assert (worth_a_lookup loc) as Hloc
    by (apply (Hs (round, scope, loc)), (nth_error_In _ _ E)).
  set (rt1 := with_suspended (remove_nth k (suspended rt)) rt).
  destruct (resume_cases scope loc outcome uuid now rt1 Hloc)
    as (Es & _ & e & He & Ea).
  destruct (await_round_app round scope (finish scope loc (Some outcome) uuid now rt1))
    as [Eapp Esus].
  rewrite Esus, Es.
  set (fin := await_round round scope (finish scope loc (Some outcome) uuid now rt1))
    in *.
  assert (discovered (app fin) = e :: discovered (app rt) /\
          wallets (app fin) = wallets (app rt) /\
          quantumCalibration (app fin) = 0 /\
          discoveryLockRef (app fin) = false) as (Hd & Hw & Hq & Hlk).
  { rewrite Ea in Eapp. apply (f_equal core) in Eapp. unfold core in Eapp.
    cbn in Eapp. injection Eapp as E1 E2 E3 E4. repeat split; assumption. }
  repeat split; try assumption.
  - exists e. split; assumption.
  - cbn [rt1 suspended with_suspended]. apply (nth_error_remove_length _ _ _ E).
Qed.

(** ** The boost *)

Lemma luck_same a b :
  luckActive (app b) = luckActive (app a) -> luck_timeouts b = luck_timeouts a ->
  luck_ok a -> luck_ok b.
Proof. unfold luck_ok. intros -> ->. auto. Qed.

Lemma spawn_luck round scope io rt :
  luckActive (app (spawn round scope io rt)) = luckActive (app rt).
Proof.
  destruct (spawn_app round scope io rt) as (b & [E | (e & [E | E])]);
    rewrite E; reflexivity.
Qed.

Lemma luck_run JSON_parse evs rt : luck_ok rt -> luck_ok (run JSON_parse rt evs).
Proof.
  apply (T_run JSON_parse (fun _ => True) (fun _ => True)
           (fun a b => luck_ok a -> luck_ok b));
    try (intros;
         match goal with
         | H : luck_ok ?a |- _ =>
             apply (luck_same a); [reflexivity | reflexivity | exact H]
         end).
  - auto.
  - intros round scope io a _. apply luck_same; [apply spawn_luck | apply spawn_desk].
  - intros k round scope loc outcome uuid now a _. apply luck_same.
    + destruct (finish_app scope loc (Some outcome) uuid now
                  (with_suspended (remove_nth k (suspended a)) a))
        as (e & _ & [E | E]); rewrite E; reflexivity.
    + destruct (finish_desk scope loc (Some outcome) uuid now
                  (with_suspended (remove_nth k (suspended a)) a))
        as (_ & _ & E & _). rewrite E. reflexivity.
  - intros scope a. apply luck_same; unfold round_settled;
      destruct (isScanningRef (app a)); reflexivity.
  - intros random a _. apply luck_same; cbn [app with_app luck_timeouts];
      unfold tick; destruct (isScanning (app a)); reflexivity.
  - intros a H. unfold triggerLuckPulse. destruct (isScanning (app a)); [|exact H].
    intros _. cbn. lia.
  - intros a H. unfold luck_timeout. destruct (luck_timeouts a); [exact H|].
    intros L. cbn in L. discriminate.
  - intros outcome elapsed a. apply luck_same; destruct outcome; reflexivity.
  - intros response a. apply luck_same; unfold report_settles;
      destruct (reports_pending a); try reflexivity;
      cbn [app with_app with_reports luck_timeouts]; unfold runAnalysis;
      destruct (auditWalletSetup JSON_parse response); reflexivity.
  - apply Forall_forall. intros ev _. destruct ev; cbn; auto.
Qed.

Lemma luck_rerender rt :
  luckActive (app (rerender rt)) = luckActive (app rt) /\
  luck_timeouts (rerender rt) = luck_timeouts rt /\
  isScanning (app (rerender rt)) = isScanning (app rt).
Proof.
  unfold rerender.
  match goal with |- context [if ?c then _ else _] => destruct c end;
    repeat split.
Qed.

(** X13. In every state reached from the initial one the boost is on only
    while one of its timeouts is pending, so it always ends.  It ends with the
    first timeout to fire: when the boost button is pressed twice and the
    timeout of the first press fires, the boost is off although the timeout
    of the second press is still pending. *)
Theorem boost_ends_with_first_timeout JSON_parse evs :
  isScanning (app (run JSON_parse initial_runtime evs)) = true ->
  let rt := run JSON_parse initial_runtime evs in
  let rt' := run JSON_parse rt [EvLuckPulse; EvLuckPulse; EvLuckTimeout] in
  (luckActive (app rt) = true -> (0 < luck_timeouts rt)%nat) /\
  luckActive (app (run JSON_parse rt [EvLuckPulse; EvLuckPulse])) = true /\
  luckActive (app rt') = false /\
  luck_timeouts rt' = S (luck_timeouts rt).
Proof.
  intros Hs rt rt'. fold rt in Hs.
  split.
  - apply (luck_run JSON_parse evs initial_runtime). intros L. discriminate.
  - unfold rt'. cbn [run fold_left]. unfold step.
    assert (forall x, isScanning (app x) = true ->
              let y := rerender (handle JSON_parse EvLuckPulse x) in
              isScanning (app y) = true /\ luckActive (app y) = true /\
              luck_timeouts y = S (luck_timeouts x)) as Hpulse.
    { intros x Hx y. unfold y.
      destruct (luck_rerender (handle JSON_parse EvLuckPulse x)) as (-> & -> & ->).
      cbn [handle]. unfold triggerLuckPulse. rewrite Hx. cbn. now rewrite Hx. }
    destruct (Hpulse rt Hs) as (S1 & L1 & T1).
    destruct (Hpulse _ S1) as (S2 & L2 & T2).
    cbv zeta in T1, T2, L2.
    set (x := rerender (handle JSON_parse EvLuckPulse
                (rerender (handle JSON_parse EvLuckPulse rt)))) in *.
    split; [exact L2|].
    destruct (luck_rerender (handle JSON_parse EvLuckTimeout x)) as (-> & -> & _).
    change (handle JSON_parse EvLuckTimeout x) with (luck_timeout x).
    unfold luck_timeout. rewrite T2, T1. split; reflexivity.
Qed.

(** ** What is known of the node *)

Lemma node_run JSON_parse evs : node_ok (app (run JSON_parse initial_runtime evs)).
Proof.
  apply state_invariant_run; try (intros; assumption).
  - intros outcome elapsed st (H1 & H2 & H3). unfold node_ok.
    destruct outcome; cbn.
    + repeat split; try discriminate.
    + repeat split; try discriminate; try reflexivity.
      destruct (providerRef st); destruct H3 as (? & ? & ?); repeat split; assumption.
  - unfold node_ok. cbn. repeat split; discriminate.
Qed.

Lemma provider_kept JSON_parse evs rt :
  providerRef (app rt) <> None -> providerRef (app (run JSON_parse rt evs)) <> None.
Proof.
  apply (state_invariant_run JSON_parse (fun st => providerRef st <> None));
    try (intros; assumption).
  intros outcome elapsed st H. destruct outcome; cbn; [discriminate | assumption].
Qed.

(** X14. In every state reached from the initial one: the latency is known
    exactly while the status is connected; the block height and the chain id
    are known exactly when a provider is held, and the provider is then the
    one of the endpoint of the status.  A provider once held is held for good:
    after a failed poll the status says disconnected but balance lookups still
    go to the provider of the last successful poll. *)
Theorem node_knowledge JSON_parse evs more :
  let st := app (run JSON_parse initial_runtime evs) in
  let ns := nodeStatus st in
  (connected ns = true <-> latency ns <> None) /\
  (providerRef st <> None <-> blockNumber ns <> None) /\
  (providerRef st <> None <-> chainId ns <> None) /\
  (forall url, providerRef st = Some url -> rpcUrl ns = url) /\
  (providerRef st <> None ->
   providerRef (app (run JSON_parse (run JSON_parse initial_runtime evs) more))
   <> None) /\
  (forall addr, getExplorerUrl ns addr <> None -> providerRef st <> None).
Proof.
  intros st ns. pose proof (node_run JSON_parse evs) as (H1 & H2 & H3).
  fold st in H1, H2, H3. cbv zeta in H1, H2, H3. fold ns in H1, H2, H3.
  assert (providerRef st <> None <-> chainId ns <> None) as Hc.
  { destruct (providerRef st); destruct H3 as (? & ? & ?); split; intros;
      congruence. }
  split; [|split; [|split; [|split; [|split]]]].
  - split; [exact H1|]. intros L. destruct (connected ns); [reflexivity|].
    exfalso. apply L, H2. reflexivity.
  - destruct (providerRef st); destruct H3 as (? & ? & ?); split; intros; congruence.
  - exact Hc.
  - intros url E. rewrite E in H3. apply H3.
  - apply provider_kept.
  - intros addr Hu. apply Hc. unfold getExplorerUrl in Hu.
    destruct (chainId ns); [discriminate | congruence].
Qed.

(** ** The attempt statistics *)

Lemma restart_effect_stats st se : scanStats (restart_effect st se) = scanStats se.
Proof.
  unfold restart_effect.
  match goal with |- context [if ?c then _ else _] => destruct c end; reflexivity.
Qed.

Lemma restart_effect_deps st se :
  dep_luckActive (restart_effect st se) = luckActive st /\
  dep_isScanning (restart_effect st se) = isScanning st /\
  (lastAttempts (restart_effect st se) = lastAttempts se \/
   lastAttempts (restart_effect st se) = 0%Z).
Proof.
  unfold restart_effect.
  destruct (Bool.eqb (luckActive st) (dep_luckActive se)) eqn:E1;
    destruct (Bool.eqb (isScanning st) (dep_isScanning se)) eqn:E2;
    cbn; repeat split; auto.
  - symmetry. now apply eqb_prop.
  - symmetry. now apply eqb_prop.
Qed.

Lemma stats_task_ok before after ev se :
  stats_ok before se -> (attemptsRef before <= attemptsRef after)%nat ->
  stats_ok after (stats_task before after ev se).
Proof.
  intros (H1 & H2 & H3 & H4 & H5) Hle. unfold stats_task.
  set (se1 := match ev with
              | EvTick _ => sample_stats (Z.of_nat (attemptsRef before)) se
              | EvToggleScan now _ => if isScanning before then se else stamp_start now se
              | _ => se
              end).
  assert ((0 <= lastAttempts se1 <= Z.of_nat (attemptsRef before))%Z /\
          (0 <= stat_wps (scanStats se1) <= stat_attempts (scanStats se1))%Z /\
          (stat_attempts (scanStats se1) <= Z.of_nat (attemptsRef before))%Z)
    as (K1 & K2 & K3).
  { unfold se1. destruct ev; try (repeat split; lia).
    - destruct (isScanning before); cbn; repeat split; lia.
    - cbn. repeat split; lia. }
  destruct (restart_effect_deps after se1) as (D1 & D2 & D3).
  unfold stats_ok. rewrite restart_effect_stats.
  repeat split; try assumption; try lia.
Qed.

Lemma stats_run_ok JSON_parse evs rt se :
  stats_ok (app rt) se ->
  stats_ok (app (run JSON_parse rt evs)) (stats_run JSON_parse rt evs se).
Proof.
  revert rt se. induction evs as [|ev evs IH]; intros rt se H; [exact H|].
  cbn [run fold_left stats_run]. apply IH, stats_task_ok; [exact H|].
  apply (grows_step JSON_parse ev rt).
Qed.

(** X15. Along every run from the initial state the statistics shown never
    run ahead of the counter: the attempts shown are at most the wallets
    processed so far, and the rate shown is between 0 and the attempts
    shown. *)
Theorem stats_never_ahead JSON_parse evs :
  let st := app (run JSON_parse initial_runtime evs) in
  let shown := scanStats (stats_run JSON_parse initial_runtime evs initial_stats) in
  (0 <= stat_wps shown)%Z /\
  (stat_wps shown <= stat_attempts shown)%Z /\
  (stat_attempts shown <= Z.of_nat (attemptsRef st))%Z.
Proof.
  intros st shown.
  assert (stats_ok (app initial_runtime) initial_stats) as H0
    by (vm_compute; intuition discriminate).
  destruct (stats_run_ok JSON_parse evs initial_runtime initial_stats H0)
    as (_ & H2 & H3 & _).
  unfold st, shown. repeat split; lia.
Qed.

(** X16. When a task changes [isScanning] or [luckActive], the effect that
    samples the counter starts again with [lastAttempts] at 0: the rate shown
    by the next tick is the whole count of wallets processed since the page
    was loaded, not the number processed since the sample before. *)
Theorem first_rate_after_restart JSON_parse evs ev random :
  (luckActive (app (step JSON_parse (run JSON_parse initial_runtime evs) ev))
   <> luckActive (app (run JSON_parse initial_runtime evs)) \/
   isScanning (app (step JSON_parse (run JSON_parse initial_runtime evs) ev))
   <> isScanning (app (run JSON_parse initial_runtime evs))) ->
  let shown :=
    scanStats
      (stats_run JSON_parse initial_runtime (evs ++ [ev; EvTick random])
         initial_stats) in
  let before_tick := app (run JSON_parse initial_runtime (evs ++ [ev])) in
  stat_wps shown = Z.of_nat (attemptsRef before_tick) /\
  stat_attempts shown = Z.of_nat (attemptsRef before_tick).
Proof.
  intros Hch shown before_tick.
  assert (forall l rt se,
            stats_run JSON_parse rt (l ++ [ev; EvTick random]) se
            = let rt1 := run JSON_parse rt l in
              let se1 := stats_run JSON_parse rt l se in
              let rt2 := step JSON_parse rt1 ev in
              let se2 := stats_task (app rt1) (app rt2) ev se1 in
              stats_task (app rt2) (app (step JSON_parse rt2 (EvTick random)))
                (EvTick random) se2) as Hsplit.
  { induction l as [|x l IH]; intros rt se; [reflexivity|].
    cbn [List.app stats_run run fold_left]. apply IH. }
  unfold shown. rewrite Hsplit. cbv zeta.
  unfold before_tick, run. rewrite fold_left_app. cbn [fold_left].
  fold (run JSON_parse initial_runtime evs).
  set (rt1 := run JSON_parse initial_runtime evs) in *.
  set (se1 := stats_run JSON_parse initial_runtime evs initial_stats).
  assert (stats_ok (app rt1) se1) as (_ & _ & _ & D1 & D2).
  { apply stats_run_ok. vm_compute; intuition discriminate. }
  set (rt2 := step JSON_parse rt1 ev) in *.
  assert (lastAttempts (stats_task (app rt1) (app rt2) ev se1) = 0%Z) as L0.
  { unfold stats_task, restart_effect.
    set (se' := match ev with
                | EvTick _ => sample_stats (Z.of_nat (attemptsRef (app rt1))) se1
                | EvToggleScan now _ =>
                    if isScanning (app rt1) then se1 else stamp_start now se1
                | _ => se1
                end).
    assert (dep_luckActive se' = luckActive (app rt1) /\
            dep_isScanning se' = isScanning (app rt1)) as [-> ->].
    { unfold se'. destruct ev; try (split; assumption).
      destruct (isScanning (app rt1)); split; assumption. }
    destruct (Bool.eqb (luckActive (app rt2)) (luckActive (app rt1))) eqn:E1;
      destruct (Bool.eqb (isScanning (app rt2)) (isScanning (app rt1))) eqn:E2;
      try reflexivity.
    exfalso. apply eqb_prop in E1, E2. destruct Hch as [Hch | Hch]; congruence. }
  unfold stats_task at 1 3. rewrite !restart_effect_stats.
  cbn [sample_stats scanStats stat_wps stat_attempts]. rewrite L0. split; lia.
Qed.

(** ** The size of a round *)





(** ** The properties above at concrete inputs *)

Lemma watch_list_sync_witness :
  let outcome := fun _ : WatchTarget => Fulfilled 1000000000000000000%N in
  let synced := syncHvtBalances (Some "https://eth.llamarpc.com") [] outcome
                  (List.rev RICH_TARGETS) in
  (forall t, In t RICH_TARGETS <-> In t (List.rev RICH_TARGETS)) /\
  (forall t, In t RICH_TARGETS -> sync_status synced t = formatEther 1000000000000000000%N).
Proof.
  intros outcome synced.
  assert (H : forall t, In t RICH_TARGETS <-> In t (List.rev RICH_TARGETS))
    by (intro t; apply in_rev).
  split; [exact H|].
  pose proof (watch_list_sync (Some "https://eth.llamarpc.com") [] outcome
                (List.rev RICH_TARGETS) H) as W.
  cbv zeta in W. destruct W as (_ & _ & W).
  destruct W as [W _]; [discriminate | intros t _; discriminate |].
  intros t Ht. destruct (W t Ht) as (bal & Hb & Hs & _).
  unfold synced. rewrite Hs. injection Hb as <-. reflexivity.
Defined.

Lemma gauge_read_out_witness :
  (0 <= 9996 # 100 /\ 9996 # 100 <= 100) /\
  gauge_text (9996 # 100) = "100.0" /\
  gauge_caption (9996 # 100) <> "ALIGNMENT PEAK".
Proof.
  assert (H1 : 0 <= 9996 # 100) by (unfold Qle; cbn; lia).
  assert (H2 : 9996 # 100 <= 100) by (unfold Qle; cbn; lia).
  split; [exact (conj H1 H2)|].
  destruct (gauge_read_out (9996 # 100) H1 H2) as (_ & Ht & Hc & _).
  split.
  - apply Ht. unfold Qle; cbn; lia.
  - intro E. apply Hc in E. revert E. unfold Qle; cbn; lia.
Defined.

Lemma alert_shows_newest_witness :
  let evs := (second_session ++ [EvBalance 0 (Fulfilled 0%N) "late" 400])%list in
  let st := app (run no_parse initial_runtime evs) in
  showCollisionAlert st = true /\
  exists e older, discovered st = e :: older /\ lastDiscovery st = Some e.
Proof.
  intros evs st.
  assert (H : showCollisionAlert (app (run no_parse initial_runtime evs)) = true)
    by (vm_compute; reflexivity).
  split; [exact H|].
  destruct (alert_shows_newest no_parse evs H) as (e & older & H1 & H2 & _).
  exists e, older. split; assumption.
Defined.

Lemma sample_trace_ok (evs : list Event) :
  Forall (fun ev => match ev with
                    | EvToggleScan _ gen | EvTimer gen => exists t, gen = sample_io t
                    | _ => True
                    end) evs ->
  Forall (event_ok (fun _ => True) random_ok) evs.
Proof.
  intro H. eapply Forall_impl; [|exact H].
  intros ev. destruct ev; cbn; try (intros; exact I).
  - intros [t ->] i. unfold random_ok, Qle; cbn; lia.
  - intros [t ->] i. unfold random_ok, Qle; cbn; lia.
Qed.

Lemma sample_sessions_ok :
  Forall (event_ok (fun _ => True) random_ok) second_session.
Proof.
  apply sample_trace_ok. unfold second_session, first_session.
  cbn [rounds_with_ticks List.app].
  repeat (apply Forall_cons; [first [exact I | eexists; reflexivity]|]).
  apply Forall_nil.
Qed.

Lemma ordinary_rows_show_zero_witness :
  let evs := [EvSetThreads 2; EvToggleScan 0 (sample_io 0)] in
  let st := app (run no_parse initial_runtime evs) in
  (Forall (event_ok (fun _ => True) random_ok) evs /\
   (0 < List.length (wallets st))%nat) /\
  Forall (fun e => balance e = "0.00") (wallets st).
Proof.
  intros evs st.
  assert (H : Forall (event_ok (fun _ => True) random_ok) evs).
  { apply sample_trace_ok.
    repeat (apply Forall_cons; [first [exact I | eexists; reflexivity]|]).
    apply Forall_nil. }
  assert (H' : (0 < List.length (wallets st))%nat) by (vm_compute; lia).
  split; [exact (conj H H')|].
  apply Forall_forall. intros e He.
  exact (ordinary_rows_show_zero no_parse evs e H He).
Defined.

Lemma lookup_ends_in_discovery_witness :
  let rt := run no_parse initial_runtime second_session in
  let rt' := step no_parse rt (EvBalance 0 (Fulfilled 0%N) "late" 400) in
  (Forall (event_ok (fun _ => True) random_ok) second_session /\
   (0 < List.length (suspended rt))%nat) /\
  wallets (app rt') = wallets (app rt) /\
  List.length (discovered (app rt')) = S (List.length (discovered (app rt))) /\
  discoveryLockRef (app rt') = false.
Proof.
  intros rt rt'.
  assert (H : (0 < List.length (suspended rt))%nat) by (vm_compute; lia).
  split; [exact (conj sample_sessions_ok H)|].
  pose proof (lookup_ends_in_discovery no_parse second_session 0 (Fulfilled 0%N)
                "late" 400 sample_sessions_ok H) as W.
  cbv zeta in W. destruct W as (_ & (e & _ & Hd) & Hw & _ & Hl & _).
  split; [exact Hw|]. split; [|exact Hl].
  unfold rt', rt. rewrite Hd. reflexivity.
Defined.

Lemma boost_ends_with_first_timeout_witness :
  let rt := run no_parse initial_runtime [EvToggleScan 0 (sample_io 0)] in
  let rt' := run no_parse rt [EvLuckPulse; EvLuckPulse; EvLuckTimeout] in
  isScanning (app rt) = true /\
  luckActive (app rt') = false /\ luck_timeouts rt' = S (luck_timeouts rt).
Proof.
  intros rt rt'.
  assert (H : isScanning (app (run no_parse initial_runtime
                                 [EvToggleScan 0 (sample_io 0)])) = true)
    by (vm_compute; reflexivity).
  split; [exact H|].
  pose proof (boost_ends_with_first_timeout no_parse
                [EvToggleScan 0 (sample_io 0)] H) as W.
  cbv zeta in W. destruct W as (_ & _ & W1 & W2).
  split; [exact W1 | exact W2].
Defined.

Lemma first_rate_after_restart_witness :
  let evs := [EvSetThreads 2] in
  let ev := EvToggleScan 0 (sample_io 0) in
  let rt := run no_parse initial_runtime evs in
  isScanning (app (step no_parse rt ev)) <> isScanning (app rt) /\
  stat_wps (scanStats (stats_run no_parse initial_runtime
                         (evs ++ [ev; EvTick (1 # 2)]) initial_stats))
  = Z.of_nat (attemptsRef (app (run no_parse initial_runtime (evs ++ [ev])))).
Proof.
  intros evs ev rt.
  assert (H : isScanning (app (step no_parse rt ev)) <> isScanning (app rt))
    by (vm_compute; discriminate).
  split; [exact H|].
  exact (proj1 (first_rate_after_restart no_parse evs ev (1 # 2) (or_intror H))).
Defined.

